(** * jenkins_uploader: a shallow embedding of [jenkins_uploader.go]

    The program reads JSON manifests, checks that each artifact is a
    downloadable archive, asks the package store of every cluster for
    the latest revision, downloads stale artifacts once and uploads them
    to every cluster that is behind.  Work is scattered over goroutines
    whose results are gathered through a counting pool ([Futures]).

    Conventions of the embedding:
    - Go [string]s are [string]s, Go [int] is a [Z] wrapped to 64 bits,
      [map[string]bool] is a [gmap string bool]; a [nil] map reads like
      the empty one and the program only writes to maps it has made.
    - [pkgs []*Package] is a list of records; the position in the list
      plays the role of the pointer, and a task mutates the record at its
      position.
    - The outside world (network, file system, the [aurora] tool, the
      user database, the order in which goroutines deliver) is a record
      of oracles, [World].
    - A goroutine that writes to its future channel is modelled by the
      list of values it sends; an unbuffered channel that nobody writes
      to blocks its reader for ever. *)

From Stdlib Require Import ZArith Bool Ascii String List Lia Permutation.
From stdpp Require Import base option list gmap strings.

Import ListNotations.
Local Open Scope string_scope.
Local Open Scope list_scope.

(** ** Strings *)

Module Str.

(** [s == v] on Go strings. *)
Definition eqb (s v : string) : bool := String.eqb s v.

(** [strings.HasPrefix]. *)
Fixpoint has_prefix (pre s : string) : bool :=
  match pre with
  | EmptyString => true
  | String a pre' =>
      match s with
      | EmptyString => false
      | String b s' => Ascii.eqb a b && has_prefix pre' s'
      end
  end.

(** [strings.Split(s, sep)[0]] for a non-empty [sep]: the part of [s]
    before the first occurrence of [sep], all of [s] when there is
    none. *)
Fixpoint before_first (sep s : string) : string :=
  match s with
  | EmptyString => EmptyString
  | String a s' =>
      if has_prefix sep s then EmptyString else String a (before_first sep s')
  end.

(** The text after the last ['/'] of [s] ([acc] collects the current
    element). *)
Fixpoint after_last_slash (acc s : string) : string :=
  match s with
  | EmptyString => acc
  | String a s' =>
      if Ascii.eqb a "/" then after_last_slash EmptyString s'
      else after_last_slash (acc +:+ String a EmptyString) s'
  end.

(** [s] without its trailing slashes. *)
Fixpoint strip_trailing_slashes (s : string) : string :=
  match s with
  | EmptyString => EmptyString
  | String a s' =>
      match strip_trailing_slashes s' with
      | EmptyString => if Ascii.eqb a "/" then EmptyString else String a EmptyString
      | r => String a r
      end
  end.

(** [path.Base]. *)
Definition Base (p : string) : string :=
  if eqb p "" then "."
  else
    let p1 := strip_trailing_slashes p in
    let p2 := after_last_slash EmptyString p1 in
    if eqb p2 "" then "/" else p2.

End Str.

(** ** Revision tokens: [shaMatch = regexp.MustCompile("[0-9a-f]{40}")] *)

Module Sha.

(** The character class [[0-9a-f]]. *)
Definition hex (a : ascii) : bool :=
  let n := nat_of_ascii a in
  ((48 <=? n)%nat && (n <=? 57)%nat) || ((97 <=? n)%nat && (n <=? 102)%nat).

(** [take_hex n s]: the first [n] characters of [s] when there are that
    many and all of them are in the class. *)
Fixpoint take_hex (n : nat) (s : string) : option string :=
  match n with
  | O => Some EmptyString
  | S n' =>
      match s with
      | EmptyString => None
      | String a s' =>
          if hex a then
            match take_hex n' s' with
            | Some t => Some (String a t)
            | None => None
            end
          else None
      end
  end.

(** The scan of [FindAllString(s, -1)] for a pattern of fixed width 40:
    the leftmost match is taken, the search resumes right after it.
    [skip] counts the characters of the last match still to pass. *)
Fixpoint scan (skip : nat) (s : string) : list string :=
  match s with
  | EmptyString => []
  | String _ s' =>
      match skip with
      | S k => scan k s'
      | O =>
          match take_hex 40 s with
          | Some t => t :: scan 39 s'
          | None => scan 0 s'
          end
      end
  end.

Definition FindAllString (s : string) : list string := scan 0 s.

End Sha.

(** ** Constants *)

(** accept .zip, .tgz and .gz files *)
Definition acceptableMIMETypes : list string :=
  [ "application/x-compressed"; "application/x-gzip"; "application/zip" ].

Definition AllClusters : list string := [ "atla"; "smf1" ].

(** ** The package record *)

Record Package := mkPackage {
  Artifact : string;
  File : string;
  Project : string;
  Revision : string;
  NeedUpdate : gmap string bool;
  Updated : gmap string bool;
  Valid : bool
}.

(** The zero value [&Package{}]. *)
Definition zeroPackage : Package := mkPackage "" "" "" "" ∅ ∅ false.

Definition set_File (v : string) (p : Package) : Package :=
  mkPackage (Artifact p) v (Project p) (Revision p) (NeedUpdate p) (Updated p) (Valid p).
Definition set_Project (v : string) (p : Package) : Package :=
  mkPackage (Artifact p) (File p) v (Revision p) (NeedUpdate p) (Updated p) (Valid p).
Definition set_NeedUpdate (v : gmap string bool) (p : Package) : Package :=
  mkPackage (Artifact p) (File p) (Project p) (Revision p) v (Updated p) (Valid p).
Definition set_Updated (v : gmap string bool) (p : Package) : Package :=
  mkPackage (Artifact p) (File p) (Project p) (Revision p) (NeedUpdate p) v (Valid p).
Definition set_Valid (v : bool) (p : Package) : Package :=
  mkPackage (Artifact p) (File p) (Project p) (Revision p) (NeedUpdate p) (Updated p) v.

(** Reading a Go map: a missing key (and a nil map) gives the zero value. *)
Definition map_get (m : gmap string bool) (k : string) : bool :=
  match m !! k with
  | Some b => b
  | None => false
  end.

Fixpoint stringInArray (s : string) (l : list string) : bool :=
  match l with
  | [] => false
  | v :: l' => if Str.eqb s v then true else stringInArray s l'
  end.

(** ** The outside world *)

(** What [cmd.Run()] gives: an error, or the captured standard output. *)
Inductive cmd_result :=
| CmdFail (err : string)
| CmdDone (stdout : string).

(** What [os.Open] followed by [json.NewDecoder(content).Decode(p)] does
    to the zero record [p].  When the file cannot be opened the decoder
    reads from a nil file, fails at once and leaves [p] as it is.
    Otherwise [filled] is [p] as the decoder left it and [err] tells
    whether it returned an error: a text that is not JSON leaves [p]
    untouched, whereas a value of the wrong type for one field (say
    [{"Artifact":"http://h/a.tgz","Revision":7}]) is reported as an error
    after the other fields have been stored.  Every exported field of
    [Package] can be set by the manifest. *)
Inductive manifest_read :=
| OpenFails
| Decoded (filled : Package) (err : bool).

Record World := mkWorld {
  (** [os.Open] and [Decode] on a manifest path. *)
  read_manifest : string -> manifest_read;
  (** The order in which the decode goroutines deliver (see [arrange]). *)
  decode_order : list nat;
  (** [http.Get] in [CheckIfValidPackage]: [None] on error, else the
      [content-type] header of the response. *)
  probe : string -> option string;
  (** [os.MkdirAll(outpath, 0777)] returns an error other than "exists". *)
  mkdir_fails : string -> bool;
  (** [os.Create(outname)] returns an error. *)
  create_fails : string -> bool;
  (** [http.Get] in [DownloadArtifact]: [None] on error, else whether
      [io.Copy] of the body succeeds. *)
  fetch : string -> option bool;
  (** [aurora package_versions --cluster=c jenkins project]. *)
  package_versions : string -> string -> cmd_result;
  (** [aurora package_add_version --cluster=c --metadata=rev user project file]. *)
  package_add_version : string -> string -> string -> string -> string -> cmd_result;
  (** [user.Current()]: [None] when it fails (the code drops the error
      and then dereferences the nil user). *)
  current_user : option string;
  (** [path.Join] of two elements. *)
  path_Join : string -> string -> string
}.

(** ** Goroutines and their future channels *)

(** How the goroutine behind a future ends: it sends the record it
    worked on, returns without sending, or panics.  The record carried
    is the record as the goroutine left it. *)
Inductive task_end :=
| Sent (p : Package)
| Returned (p : Package)
| Panics (p : Package).

(** The values written to the future channel. *)
Definition sends (e : task_end) : list Package :=
  match e with
  | Sent p => [p]
  | Returned _ | Panics _ => []
  end.

Definition record_after (e : task_end) : Package :=
  match e with
  | Sent p | Returned p | Panics p => p
  end.

(** [decodeJsonFile]: the record and what the goroutine sends. *)
Definition decodeJsonFile (w : World) (jsonFile : string) : task_end :=
  let p := zeroPackage in
  let p :=
    match read_manifest w jsonFile with
    | OpenFails => p
    | Decoded filled _ => filled
    end in
  let p := set_Project (Str.before_first ".json" (Str.Base jsonFile)) p in
  Sent p.

(** [DownloadArtifact]: every failure logs and returns.  The calls of
    [os.Stat] and [os.Remove] on the output directory act on the file
    system only and their results are not looked at. *)
Definition DownloadArtifact (w : World) (basedir : string) (p : Package) : task_end :=
  let outpath := path_Join w basedir (Project p) in
  let outname := path_Join w outpath (Str.Base (Artifact p)) in
  if mkdir_fails w outpath then Returned p
  else if create_fails w outname then Returned p
  else
    match fetch w (Artifact p) with
    | None => Returned p
    | Some copied =>
        if copied then Sent (set_File outname p) else Returned p
    end.

(** The assignments to [p.Valid] made by [CheckIfValidPackage], in
    program order. *)
Definition Valid_writes (w : World) (p : Package) : list bool :=
  false ::
  match probe w (Artifact p) with
  | Some ct => if stringInArray ct acceptableMIMETypes then [true] else []
  | None => []
  end.

(** [CheckIfValidPackage]. *)
Definition CheckIfValidPackage (w : World) (p : Package) : task_end :=
  let p := set_Valid false p in
  let p :=
    match probe w (Artifact p) with
    | Some ct => if stringInArray ct acceptableMIMETypes then set_Valid true p else p
    | None => p
    end in
  Sent p.

(** [clusterOkToUpdate]: the decision and the status text. *)
Definition clusterOkToUpdate (w : World) (p : Package) (cluster : string) : bool * string :=
  match package_versions w cluster (Project p) with
  | CmdFail err => (true, err)
  | CmdDone out =>
      let shas := Sha.FindAllString out in
      match last shas with
      | None => (true, "No shas found for " +:+ Project p +:+ " in " +:+ cluster)
      | Some latest =>
          if Str.eqb (Revision p) latest
          then (false, Project p +:+ " does not need to be updated.")
          else (true, Project p +:+ " is not up to date in " +:+ cluster)
      end
  end.

(** The loop of [IsUpdateNeeded] over the clusters. *)
Fixpoint assess_clusters (w : World) (clusters : list string) (p : Package) : Package :=
  match clusters with
  | [] => p
  | cluster :: rest =>
      let ok := fst (clusterOkToUpdate w p cluster) in
      assess_clusters w rest (set_NeedUpdate (<[cluster := ok]> (NeedUpdate p)) p)
  end.

(** [IsUpdateNeeded]. *)
Definition IsUpdateNeeded (w : World) (p : Package) : task_end :=
  let p := set_NeedUpdate ∅ p in
  Sent (assess_clusters w AllClusters p).

(** The goroutine of [UpdatePackage] (the map is made by the caller
    before the goroutine starts, see [upload_spawn]). *)
Definition UpdatePackage_run (w : World) (cluster : string) (p : Package) : task_end :=
  match current_user w with
  | None => Panics p
  | Some username =>
      match package_add_version w cluster (Revision p) username (Project p) (File p) with
      | CmdFail _ => Sent (set_Updated (<[cluster := false]> (Updated p)) p)
      | CmdDone _ => Sent (set_Updated (<[cluster := true]> (Updated p)) p)
      end
  end.

(** ** The pool of futures *)

Definition int_max : Z := 9223372036854775807.
Definition int_min : Z := -9223372036854775808.

(** [n++] on a 64-bit [int]. *)
Definition int_incr (n : Z) : Z :=
  if (n =? int_max)%Z then int_min else (n + 1)%Z.

(** [Channels] holds the values that have been relayed onto the shared
    channel and not yet received. *)
Record Futures := mkFutures {
  Channels : list Package;
  ItemsInChannels : Z
}.

Definition newFutures : Futures := mkFutures [] 0.

(** [AddFuture]: a forwarder is started and the count goes up by one. *)
Definition AddFuture (futures : Futures) : Futures :=
  mkFutures (Channels futures) (int_incr (ItemsInChannels futures)).

(** The forwarder of a future relays what the future sends. *)
Definition relay (vs : list Package) (futures : Futures) : Futures :=
  mkFutures (Channels futures ++ vs) (ItemsInChannels futures).

(** The loop [for ; futures.ItemsInChannels > 0; futures.ItemsInChannels--
    { <-futures.Channels }]: the values received, in order, and the pool
    left; [None] when a receive finds the channel empty, which blocks
    for ever. *)
Fixpoint recv_loop (n : Z) (ch : list Package) : option (list Package * Futures) :=
  if (0 <? n)%Z then
    match ch with
    | [] => None
    | v :: ch' =>
        match recv_loop (n - 1) ch' with
        | Some (got, f) => Some (v :: got, f)
        | None => None
        end
    end
  else Some ([], mkFutures ch n).

(** [BlockUntilComplete]: what is received is dropped, so the order of
    arrival does not matter here. *)
Definition BlockUntilComplete (futures : Futures) : option Futures :=
  match recv_loop (ItemsInChannels futures) (Channels futures) with
  | Some (_, f) => Some f
  | None => None
  end.

(** ** Gathering the manifests *)

(** The order of arrival on the shared channel is the scheduler's
    choice: [arrange picks l] lists [l] in the order chosen by [picks]
    (each pick selects one of the values still to come). *)
Fixpoint arrange {A} (picks : list nat) (l : list A) : list A :=
  match picks with
  | [] => l
  | k :: picks' =>
      let i := (k mod length l)%nat in
      match l !! i with
      | Some x => x :: arrange picks' (delete i l)
      | None => l
      end
  end.

(** The first loop of [GetAllPackages]. *)
Fixpoint register_decoders (w : World) (matched : list string) (futures : Futures) : Futures :=
  match matched with
  | [] => futures
  | v :: rest =>
      register_decoders w rest (relay (sends (decodeJsonFile w v)) (AddFuture futures))
  end.

(** [GetAllPackages], given what [filepath.Glob] matched: the records in
    the order received and the pool left; [None] when a receive blocks
    for ever. *)
Definition GetAllPackages (w : World) (matched : list string) (futures : Futures)
  : option (list Package * Futures) :=
  let futures := register_decoders w matched futures in
  recv_loop (ItemsInChannels futures) (arrange (decode_order w) (Channels futures)).

(** ** The stages of [main] *)

(** The goroutines started by [main], named by the position of their
    record in [pkgs]. *)
Inductive task :=
| TValidate (i : nat)
| TAssess (i : nat)
| TDownload (i : nat)
| TUpload (i : nat) (cluster : string).

Global Instance task_eq_dec : EqDecision task.
Proof. solve_decision. Defined.

(** The record a task writes to. *)
Definition target (t : task) : nat :=
  match t with
  | TValidate i | TAssess i | TDownload i | TUpload i _ => i
  end.

(** The state of [main] between statements: the records, the pool, the
    goroutines started so far and the labels logged by
    [BlockUntilComplete]. *)
Record state := mkState {
  pkgs : list Package;
  futures : Futures;
  spawned : list task;
  drains : list string
}.

(** A loop [for _, p := range pkgs { ... }] whose body starts at most one
    goroutine on [p]: [body i p] is the goroutine and how it ends.  The
    goroutine has ended when a later statement of [main] looks at the
    record, since every loop is followed by a drain. *)
Fixpoint range_pkgs (body : nat -> Package -> option (task * task_end))
    (i : nat) (ps : list Package) (acc : list task * Futures)
  : list Package * (list task * Futures) :=
  match ps with
  | [] => ([], acc)
  | p :: rest =>
      match body i p with
      | Some (t, e) =>
          let acc' := (fst acc ++ [t], relay (sends e) (AddFuture (snd acc))) in
          let '(rs, out) := range_pkgs body (S i) rest acc' in
          (record_after e :: rs, out)
      | None =>
          let '(rs, out) := range_pkgs body (S i) rest acc in
          (p :: rs, out)
      end
  end.

Definition run_loop (body : nat -> Package -> option (task * task_end)) (s : state) : state :=
  let '(ps, (ts, f)) := range_pkgs body 0 (pkgs s) (spawned s, futures s) in
  mkState ps f ts (drains s).

(** [futures.AddFuture(p.CheckIfValidPackage())] *)
Definition validate_body (w : World) (i : nat) (p : Package) : option (task * task_end) :=
  Some (TValidate i, CheckIfValidPackage w p).

(** [if p.Valid { futures.AddFuture(p.IsUpdateNeeded()) }] *)
Definition assess_body (w : World) (i : nat) (p : Package) : option (task * task_end) :=
  if Valid p then Some (TAssess i, IsUpdateNeeded w p) else None.

(** The inner loop of the download stage, with its [break]: does it
    reach a cluster that needs the update? *)
Fixpoint any_stale (clusters : list string) (p : Package) : bool :=
  match clusters with
  | [] => false
  | cluster :: rest =>
      if map_get (NeedUpdate p) cluster then true else any_stale rest p
  end.

Definition download_body (w : World) (basedir : string) (i : nat) (p : Package)
  : option (task * task_end) :=
  if any_stale AllClusters p then Some (TDownload i, DownloadArtifact w basedir p) else None.

(** *** The upload stage

    [main] calls [p.UpdatePackage(cluster)] once per stale cluster.  The
    call itself makes a new [Updated] map; the goroutine it starts writes
    its entry later, at a moment chosen by the scheduler, so the stage is
    a machine whose steps are the iterations of [main]'s loop and the
    ends of the goroutines. *)

(** The clusters for which the inner loop calls [UpdatePackage]. *)
Fixpoint stale_clusters (clusters : list string) (p : Package) : list string :=
  match clusters with
  | [] => []
  | cluster :: rest =>
      if map_get (NeedUpdate p) cluster
      then cluster :: stale_clusters rest p
      else stale_clusters rest p
  end.

(** The calls of the two nested loops, in order (no goroutine of this
    stage writes [NeedUpdate]). *)
Fixpoint upload_plan (i : nat) (ps : list Package) : list (nat * string) :=
  match ps with
  | [] => []
  | p :: rest => map (pair i) (stale_clusters AllClusters p) ++ upload_plan (S i) rest
  end.

Record upload_state := mkUpload {
  u_main : state;
  (** calls [main] has still to make *)
  u_todo : list (nat * string);
  (** goroutines started and not ended *)
  u_running : list (nat * string);
  u_panicked : bool
}.

Inductive choice :=
| Main
| Task (k : nat).

(** The synchronous part of [futures.AddFuture(p.UpdatePackage(cluster))]. *)
Definition upload_spawn (i : nat) (cluster : string) (s : state) : state :=
  mkState (alter (set_Updated ∅) i (pkgs s))
          (AddFuture (futures s))
          (spawned s ++ [TUpload i cluster])
          (drains s).

(** The goroutine of [UpdatePackage] runs to its end on the record as it
    is now. *)
Definition upload_finish (w : World) (i : nat) (cluster : string) (s : state) : state * bool :=
  match pkgs s !! i with
  | None => (s, false)
  | Some p =>
      match UpdatePackage_run w cluster p with
      | Panics _ => (s, true)
      | e =>
          (mkState (<[i := record_after e]> (pkgs s))
                   (relay (sends e) (futures s))
                   (spawned s) (drains s), false)
      end
  end.

(** One step of the stage; a choice that is not enabled does nothing,
    and nothing moves once a goroutine has panicked. *)
Definition upload_step (w : World) (c : choice) (u : upload_state) : upload_state :=
  if u_panicked u then u
  else
    match c with
    | Main =>
        match u_todo u with
        | [] => u
        | (i, cluster) :: rest =>
            mkUpload (upload_spawn i cluster (u_main u)) rest
                     (u_running u ++ [(i, cluster)]) false
        end
    | Task k =>
        match u_running u !! k with
        | None => u
        | Some (i, cluster) =>
            let '(s, panicked) := upload_finish w i cluster (u_main u) in
            mkUpload s (u_todo u) (delete k (u_running u)) panicked
        end
    end.

Definition upload_steps (w : World) (cs : list choice) (u : upload_state) : upload_state :=
  fold_left (fun u c => upload_step w c u) cs u.

(** After the scheduled steps [main] makes its remaining calls and the
    goroutines still running end in the order they were started. *)
Definition upload_settle (w : World) (u : upload_state) : upload_state :=
  let u := Nat.iter (length (u_todo u)) (upload_step w Main) u in
  Nat.iter (length (u_running u)) (upload_step w (Task 0)) u.

Definition upload_start (s : state) : upload_state :=
  mkUpload s (upload_plan 0 (pkgs s)) [] false.

Definition upload_stage (w : World) (sched : list choice) (s : state) : upload_state :=
  upload_settle w (upload_steps w sched (upload_start s)).

(** ** [main] *)

Inductive outcome :=
| FatalNoPackages      (** [log.Fatal("No packages found")] *)
| FatalNoneValid       (** [log.Fatal("Unable to process any projects!")] *)
| ExitUpToDate         (** [os.Exit(0)] *)
| Hung                 (** a receive that no goroutine will ever serve *)
| Panicked             (** a goroutine panicked *)
| Finished.            (** [main] returned *)

(** What the rest of the process needs beside [World]: the result of
    [filepath.Glob] on the pattern, the working directory and the
    scheduler's choices during the upload stage. *)
Record Process := mkProcess {
  glob : string -> list string;
  pwd : string;
  upload_sched : list choice
}.

(** [futures.BlockUntilComplete(reason)] in [main]: the label is logged,
    then the pool is drained; [inr] when the drain never returns. *)
Definition block (reason : string) (s : state) : state + state :=
  let s := mkState (pkgs s) (futures s) (spawned s) (drains s ++ [reason]) in
  match BlockUntilComplete (futures s) with
  | Some f => inl (mkState (pkgs s) f (spawned s) (drains s))
  | None => inr s
  end.

(** The final report: one line per cluster that needed the update. *)
Definition report_package (p : Package) : list (string * string * bool) :=
  map (fun cluster => (Project p, cluster, map_get (Updated p) cluster))
      (stale_clusters AllClusters p).

Definition final_report (s : state) : list (string * string * bool) :=
  flat_map report_package (pkgs s).

Definition main (w : World) (pr : Process) (project rootPath : string) : state * outcome :=
  let downloadTmpDir := path_Join w (pwd pr) "downloads_tmp" in
  match GetAllPackages w (glob pr (path_Join w rootPath (project +:+ ".json"))) newFutures with
  | None => (mkState [] newFutures [] [], Hung)
  | Some (ps, fs) =>
  let s := mkState ps fs [] [] in
  if (length ps <? 1)%nat then (s, FatalNoPackages) else
  let s := run_loop (validate_body w) s in
  match block "Checking validity of packages" s with
  | inr s => (s, Hung)
  | inl s =>
  let s := run_loop (assess_body w) s in
  if negb (0 <? ItemsInChannels (futures s))%Z then (s, FatalNoneValid) else
  match block "Checking which packer clusters need to be updated" s with
  | inr s => (s, Hung)
  | inl s =>
  let s := run_loop (download_body w downloadTmpDir) s in
  if negb (0 <? ItemsInChannels (futures s))%Z then (s, ExitUpToDate) else
  match block "Downloading packages" s with
  | inr s => (s, Hung)
  | inl s =>
  let u := upload_stage w (upload_sched pr) s in
  if u_panicked u then (u_main u, Panicked) else
  match block "Updating packages" (u_main u) with
  | inr s => (s, Hung)
  | inl s => (s, Finished)
  end end end end end.

(** ** Descriptions used in the statements *)

(** What a loop of [main] starts, what its goroutines send and how they
    leave the records, read off the body of the loop. *)
Fixpoint loop_tasks (body : nat -> Package -> option (task * task_end))
    (i : nat) (ps : list Package) : list task :=
  match ps with
  | [] => []
  | p :: rest =>
      match body i p with
      | Some (t, _) => t :: loop_tasks body (S i) rest
      | None => loop_tasks body (S i) rest
      end
  end.

Fixpoint loop_sends (body : nat -> Package -> option (task * task_end))
    (i : nat) (ps : list Package) : list Package :=
  match ps with
  | [] => []
  | p :: rest =>
      match body i p with
      | Some (_, e) => sends e ++ loop_sends body (S i) rest
      | None => loop_sends body (S i) rest
      end
  end.

Fixpoint loop_records (body : nat -> Package -> option (task * task_end))
    (i : nat) (ps : list Package) : list Package :=
  match ps with
  | [] => []
  | p :: rest =>
      match body i p with
      | Some (_, e) => record_after e :: loop_records body (S i) rest
      | None => p :: loop_records body (S i) rest
      end
  end.

(** The records [main] holds after each stage, for the manifests
    [matched]. *)
Definition decoded (w : World) (matched : list string) : list Package :=
  arrange (decode_order w) (map (fun v => record_after (decodeJsonFile w v)) matched).

Definition validated (w : World) (matched : list string) : list Package :=
  loop_records (validate_body w) 0 (decoded w matched).

Definition assessed (w : World) (matched : list string) : list Package :=
  loop_records (assess_body w) 0 (validated w matched).

Definition downloaded (w : World) (basedir : string) (matched : list string) : list Package :=
  loop_records (download_body w basedir) 0 (assessed w matched).

(** The gates of the driver in the words of its description: which way
    a run goes. *)
Inductive gate :=
| AbortNoPackages
| AbortNoneValid
| ExitClean
| Proceed.

Definition gate_of (o : outcome) : gate :=
  match o with
  | FatalNoPackages => AbortNoPackages
  | FatalNoneValid => AbortNoneValid
  | ExitUpToDate => ExitClean
  | Hung | Panicked | Finished => Proceed
  end.

Definition described_gate (w : World) (matched : list string) : gate :=
  match matched with
  | [] => AbortNoPackages
  | _ =>
      if forallb (fun p => negb (Valid p)) (validated w matched) then AbortNoneValid
      else if forallb (fun p => negb (any_stale AllClusters p)) (assessed w matched)
      then ExitClean
      else Proceed
  end.

(** A record with its [Updated] map forgotten: the upload stage writes
    nothing else. *)
Definition erase_Updated (p : Package) : Package := set_Updated ∅ p.

Definition upload_task (x : nat * string) : task := TUpload (fst x) (snd x).

(** What holds of the upload stage started in [s0] at every moment: [a]
    calls have been made. *)
Definition upload_inv (w : World) (s0 : state) (u : upload_state) : Prop :=
  let plan := upload_plan 0 (pkgs s0) in
  exists a : nat,
    a <= length plan
    /\ u_todo u = drop a plan
    /\ spawned (u_main u) = spawned s0 ++ map upload_task (take a plan)
    /\ drains (u_main u) = drains s0
    /\ map erase_Updated (pkgs (u_main u)) = map erase_Updated (pkgs s0)
    /\ Forall (fun x => fst x < length (pkgs s0)) (u_running u)
    /\ (u_panicked u = false ->
          ItemsInChannels (futures (u_main u)) = Z.of_nat a
          /\ length (Channels (futures (u_main u))) + length (u_running u) = a)
    /\ (u_panicked u = true -> current_user w = None /\ 0 < a)
    /\ (current_user w = None -> Channels (futures (u_main u)) = []).

(** What the upload goroutine of [cluster] records for the record [p]
    when the current user is [username]. *)
Definition upload_result (w : World) (username : string) (p : Package) (cluster : string)
  : bool :=
  match package_add_version w cluster (Revision p) username (Project p) (File p) with
  | CmdDone _ => true
  | CmdFail _ => false
  end.

(** A record with its [NeedUpdate] map forgotten. *)
Definition erase_NeedUpdate (p : Package) : Package := set_NeedUpdate ∅ p.

(** A text contains a revision token at some position. *)
Definition has_token (s : string) : Prop :=
  exists pre t post,
    s = pre +:+ t +:+ post
    /\ String.length t = 40
    /\ Forall (fun a => Sha.hex a = true) (list_ascii_of_string t).

(** [sub] occurs in [s]. *)
Definition occurs (sub s : string) : Prop :=
  exists pre post, s = pre +:+ sub +:+ post.

(** The entry of [cluster] in the [Updated] map of the record [p] at
    position [i], whose state on entering the upload stage was [p0]: the
    goroutine is still running and nothing is written, or it has
    written its result, or the cluster was not stale and has no entry. *)
Definition entry_state (w : World) (username : string) (running : list (nat * string))
    (i : nat) (p0 p : Package) (cluster : string) : Prop :=
  (In (i, cluster) running /\ Updated p !! cluster = None)
  \/ (In cluster (stale_clusters AllClusters p0)
      /\ Updated p !! cluster = Some (upload_result w username p0 cluster))
  \/ (~ In cluster (stale_clusters AllClusters p0) /\ Updated p !! cluster = None).

(** What holds of the upload stage started in [s0] while [main] makes
    its calls and no goroutine has ended: [a] calls have been made. *)
Definition calling_inv (s0 : state) (u : upload_state) : Prop :=
  let plan := upload_plan 0 (pkgs s0) in
  exists a : nat,
    u_todo u = drop a plan
    /\ u_running u = take a plan
    /\ u_panicked u = false
    /\ forall i p0, pkgs s0 !! i = Some p0 ->
         exists p, pkgs (u_main u) !! i = Some p
                   /\ erase_Updated p = erase_Updated p0
                   /\ ((exists c, In (i, c) (take a plan)) -> Updated p = ∅).

(** What holds once [main] has made all its calls. *)
Definition ending_inv (w : World) (username : string) (s0 : state) (u : upload_state)
  : Prop :=
  u_todo u = []
  /\ u_panicked u = false
  /\ Forall (fun x => In x (upload_plan 0 (pkgs s0))) (u_running u)
  /\ forall i p0, pkgs s0 !! i = Some p0 ->
       exists p, pkgs (u_main u) !! i = Some p
                 /\ erase_Updated p = erase_Updated p0
                 /\ (stale_clusters AllClusters p0 <> [] ->
                     forall c, entry_state w username (u_running u) i p0 p c).

(** Registering the futures of the goroutines [es] with a pool, one
    [AddFuture] each; their forwarders relay what they send. *)
Definition register_all (es : list task_end) (f : Futures) : Futures :=
  fold_left (fun f e => relay (sends e) (AddFuture f)) es f.

Definition delivers (e : task_end) : bool :=
  match e with
  | Sent _ => true
  | Returned _ | Panics _ => false
  end.

(** Every download goroutine that the download loop starts on the
    records [ps] delivers. *)
Definition downloads_deliver (w : World) (basedir : string) (ps : list Package) : Prop :=
  forall i p, ps !! i = Some p -> any_stale AllClusters p = true ->
              sends (DownloadArtifact w basedir p) <> [].

(** A text starts with a revision token. *)
Definition starts_token (s : string) : Prop :=
  exists t post,
    s = t +:+ post
    /\ String.length t = 40
    /\ Forall (fun a => Sha.hex a = true) (list_ascii_of_string t).

(** The revision tokens of a text, in the words of the pattern
    [[0-9a-f]{40}] and of [FindAllString]: none when the text has no run
    of forty characters of the class; otherwise the leftmost run, before
    which no position starts a run, followed by the tokens of the text
    after it. *)
Inductive tokens_in : string -> list string -> Prop :=
| tokens_none (s : string) :
    ~ has_token s -> tokens_in s []
| tokens_cons (s gap t rest : string) (ts : list string) :
    s = gap +:+ t +:+ rest ->
    String.length t = 40 ->
    Forall (fun a => Sha.hex a = true) (list_ascii_of_string t) ->
    (forall pre post, gap = pre +:+ post -> post <> "" ->
                      ~ starts_token (post +:+ t +:+ rest)) ->
    tokens_in rest ts ->
    tokens_in s (t :: ts).

(** The download of the record [p] into [basedir] goes through: the
    directory and the file can be created, the fetch succeeds and the
    copy completes. *)
Definition download_succeeds (w : World) (basedir : string) (p : Package) : Prop :=
  mkdir_fails w (path_Join w basedir (Project p)) = false
  /\ create_fails w (path_Join w (path_Join w basedir (Project p))
                               (Str.Base (Artifact p))) = false
  /\ fetch w (Artifact p) = Some true.

(** The download goes through for every record of [ps] that has a stale
    cluster. *)
Definition downloads_succeed (w : World) (basedir : string) (ps : list Package) : Prop :=
  forall i p, ps !! i = Some p -> any_stale AllClusters p = true ->
              download_succeeds w basedir p.

(** ** Sample worlds *)

Module Sample.

Definition rev_new : string := "0123456789abcdef0123456789abcdef01234567".
Definition rev_old : string := "89abcdef0123456789abcdef0123456789abcdef".

Definition join (a b : string) : string := a +:+ "/" +:+ b.

(** One manifest [/cfg/app.json]; the artifact is a gzip archive, the
    query tool fails in both clusters, the download and both uploads
    succeed. *)
Definition manifest_app : Package :=
  mkPackage "http://ci/app.tgz" "" "" rev_new ∅ ∅ false.

Definition world : World :=
  mkWorld (fun _ => Decoded manifest_app false)
          []
          (fun _ => Some "application/x-gzip")
          (fun _ => false) (fun _ => false)
          (fun _ => Some true)
          (fun _ _ => CmdFail "exit status 1")
          (fun _ _ _ _ _ => CmdDone "added")
          (Some "deploy")
          join.

Definition process (sched : list choice) : Process :=
  mkProcess (fun _ => ["/cfg/app.json"]) "/home/ci" sched.

(** The same, but the fetch of the artifact fails. *)
Definition world_fetch_fails : World :=
  mkWorld (read_manifest world) (decode_order world) (probe world)
          (mkdir_fails world) (create_fails world)
          (fun _ => None)
          (package_versions world) (package_add_version world)
          (current_user world) join.

(** Two manifests.  [/cfg/app.json] is as above.  [/cfg/doc.json] is
    [{"Artifact":"http://ci/doc.txt","NeedUpdate":{"atla":true}}] and
    its artifact is served as plain text. *)
Definition manifest_doc : Package :=
  mkPackage "http://ci/doc.txt" "" "" "" {[ "atla" := true ]} ∅ false.

Definition world_two : World :=
  mkWorld (fun f => if Str.eqb f "/cfg/doc.json"
                    then Decoded manifest_doc false
                    else Decoded manifest_app false)
          []
          (fun url => if Str.eqb url "http://ci/doc.txt"
                      then Some "text/plain"
                      else Some "application/x-gzip")
          (mkdir_fails world) (create_fails world) (fetch world)
          (package_versions world) (package_add_version world)
          (current_user world) join.

Definition process_two : Process :=
  mkProcess (fun _ => ["/cfg/app.json"; "/cfg/doc.json"]) "/home/ci" [].

(** A manifest whose [Revision] has the wrong type:
    [{"Artifact":"http://h/a.tgz","Revision":7}].  The decoder stores
    the artifact and reports the type error. *)
Definition manifest_badrev : Package :=
  mkPackage "http://h/a.tgz" "" "" "" ∅ ∅ false.

Definition world_badrev : World :=
  mkWorld (fun _ => Decoded manifest_badrev true)
          [] (probe world) (mkdir_fails world) (create_fails world)
          (fetch world) (package_versions world) (package_add_version world)
          (current_user world) join.

(** A cluster whose store lists an old and then the declared revision. *)
Definition world_current : World :=
  mkWorld (read_manifest world) [] (probe world)
          (mkdir_fails world) (create_fails world) (fetch world)
          (fun _ _ => CmdDone ("v1 " +:+ rev_old +:+ " v2 " +:+ rev_new +:+ " "))
          (package_add_version world) (current_user world) join.

(** The state in which [main] enters the upload stage in [world]. *)
Definition at_upload : state :=
  mkState [ mkPackage "http://ci/app.tgz" "/home/ci/downloads_tmp/app/app.tgz"
                      "app" rev_new {[ "atla" := true; "smf1" := true ]} ∅ true ]
          (mkFutures [] 0)
          [ TValidate 0; TAssess 0; TDownload 0 ]
          [ "Checking validity of packages";
            "Checking which packer clusters need to be updated";
            "Downloading packages" ].

(** What a test reads off a run: per record the project, the validity
    and the [Updated] entries of the two clusters. *)
Definition updated_entries (s : state) : list (string * bool * option bool * option bool) :=
  map (fun p => (Project p, Valid p, Updated p !! "atla", Updated p !! "smf1")) (pkgs s).

End Sample.

(** * Properties *)

(** ** The pool *)

Lemma int_incr_small (n : Z) : (n < int_max)%Z -> int_incr n = (n + 1)%Z.
Proof.
  intros Hn. unfold int_incr.
  destruct (Z.eqb_spec n int_max) as [Heq | Hne]; [lia | reflexivity].
Qed.

Lemma iter_int_incr (k : nat) (n : Z) :
  (n + Z.of_nat k <= int_max)%Z ->
  Nat.iter k int_incr n = (n + Z.of_nat k)%Z.
Proof.
  revert n. induction k as [| k IH]; intros n Hk.
  - simpl. lia.
  - rewrite Nat.iter_succ_r, IH.
    + rewrite int_incr_small by lia. lia.
    + rewrite int_incr_small by lia. lia.
Qed.

Lemma recv_loop_idle (n : Z) (ch : list Package) :
  (n <= 0)%Z -> recv_loop n ch = Some ([], mkFutures ch n).
Proof.
  intros Hn. destruct ch; simpl; destruct (Z.ltb_spec 0 n); (lia || reflexivity).
Qed.

Lemma recv_loop_enough (ch : list Package) :
  forall k : nat, k <= length ch ->
    recv_loop (Z.of_nat k) ch = Some (take k ch, mkFutures (drop k ch) 0).
Proof.
  induction ch as [| v ch IH]; intros k Hk.
  - simpl in Hk. assert (k = 0) as -> by lia. reflexivity.
  - destruct k as [| k].
    + rewrite recv_loop_idle by lia. reflexivity.
    + cbn [recv_loop].
      destruct (Z.ltb_spec 0 (Z.of_nat (S k))) as [_ | Hle]; [| lia].
      replace (Z.of_nat (S k) - 1)%Z with (Z.of_nat k) by lia.
      rewrite IH by (simpl in Hk; lia). reflexivity.
Qed.

Lemma recv_loop_starved (ch : list Package) :
  forall k : nat, length ch < k -> recv_loop (Z.of_nat k) ch = None.
Proof.
  induction ch as [| v ch IH]; intros k Hk.
  - simpl. destruct (Z.ltb_spec 0 (Z.of_nat k)); [reflexivity | simpl in Hk; lia].
  - destruct k as [| k]; [simpl in Hk; lia |].
    cbn [recv_loop].
    destruct (Z.ltb_spec 0 (Z.of_nat (S k))) as [_ | Hle]; [| lia].
    replace (Z.of_nat (S k) - 1)%Z with (Z.of_nat k) by lia.
    rewrite IH by (simpl in Hk; lia). reflexivity.
Qed.

Lemma BlockUntilComplete_exact (ch : list Package) (k : nat) :
  length ch = k ->
  BlockUntilComplete (mkFutures ch (Z.of_nat k)) = Some (mkFutures [] 0).
Proof.
  intros Hk. unfold BlockUntilComplete. simpl.
  rewrite recv_loop_enough by lia.
  rewrite drop_ge by lia. reflexivity.
Qed.

Lemma BlockUntilComplete_starved (ch : list Package) (k : nat) :
  length ch < k -> BlockUntilComplete (mkFutures ch (Z.of_nat k)) = None.
Proof.
  intros Hk. unfold BlockUntilComplete. simpl.
  rewrite recv_loop_starved by lia. reflexivity.
Qed.

(** A pool on which [k] futures have been registered since it was last
    empty counts [k]. *)
Lemma registered_count (k : nat) :
  (Z.of_nat k <= int_max)%Z ->
  ItemsInChannels (Nat.iter k AddFuture newFutures) = Z.of_nat k.
Proof.
  induction k as [| k IH]; intros Hk; [reflexivity |].
  change (Nat.iter (S k) AddFuture newFutures)
    with (AddFuture (Nat.iter k AddFuture newFutures)).
  unfold AddFuture at 1. cbn [ItemsInChannels]. rewrite IH by lia.
  rewrite int_incr_small by lia. lia.
Qed.

(** C3. A pool whose count is [N >= 0]: when at least [N] values reach
    the shared channel the drain receives exactly the first [N] of them,
    one per decrement, and returns with the count at zero and the rest
    of the channel untouched; when fewer arrive it never returns.
    Registering a future raises the count by exactly one and leaves the
    channel alone. *)
Theorem pool_count_is_precise (f : Futures) :
  (0 <= ItemsInChannels f)%Z ->
  let n := Z.to_nat (ItemsInChannels f) in
  (n <= length (Channels f) ->
     recv_loop (ItemsInChannels f) (Channels f)
       = Some (take n (Channels f), mkFutures (drop n (Channels f)) 0)
     /\ length (take n (Channels f)) = n
     /\ BlockUntilComplete f = Some (mkFutures (drop n (Channels f)) 0))
  /\ (length (Channels f) < n -> BlockUntilComplete f = None)
  /\ ((ItemsInChannels f < int_max)%Z ->
        ItemsInChannels (AddFuture f) = (ItemsInChannels f + 1)%Z
        /\ Channels (AddFuture f) = Channels f).
Proof.
  intros Hpos n.
  assert (ItemsInChannels f = Z.of_nat n) as Hn by (unfold n; lia).
  split; [| split].
  - intros Hlen. unfold BlockUntilComplete. rewrite Hn.
    rewrite recv_loop_enough by exact Hlen.
    repeat split. rewrite length_take. lia.
  - intros Hlen. unfold BlockUntilComplete. rewrite Hn.
    rewrite recv_loop_starved by exact Hlen. reflexivity.
  - intros Hlt. split; [| reflexivity].
    simpl. apply int_incr_small. exact Hlt.
Qed.

Lemma pool_count_is_precise_witness :
  let f := mkFutures [Sample.manifest_app; Sample.manifest_app; zeroPackage] 2 in
  BlockUntilComplete f = Some (mkFutures [zeroPackage] 0)
  /\ ItemsInChannels (AddFuture f) = 3%Z.
Proof.
  intros f.
  assert (0 <= ItemsInChannels f)%Z as Hpos by (simpl; lia).
  destruct (pool_count_is_precise f Hpos) as (Hdrain & _ & Hreg).
  split.
  - destruct Hdrain as (_ & _ & Hb); [simpl; lia | exact Hb].
  - destruct Hreg as [Hc _]; [unfold int_max; simpl; lia | exact Hc].
Defined.

(** ** The update-need decision *)

Lemma take_hex_shape (n : nat) :
  forall s t, Sha.take_hex n s = Some t ->
    String.length t = n
    /\ Forall (fun a => Sha.hex a = true) (list_ascii_of_string t)
    /\ exists rest, s = t +:+ rest.
Proof.
  induction n as [| n IH]; intros s t H.
  - simpl in H. inversion H; subst. simpl. repeat split; [constructor | now exists s].
  - destruct s as [| a s']; simpl in H; [discriminate |].
    destruct (Sha.hex a) eqn:Ha; [| discriminate].
    destruct (Sha.take_hex n s') as [t' |] eqn:Ht; [| discriminate].
    inversion H; subst.
    destruct (IH _ _ Ht) as (Hlen & Hall & rest & Hrest).
    simpl. repeat split.
    + now rewrite Hlen.
    + constructor; assumption.
    + exists rest. now rewrite Hrest at 1.
Qed.

Lemma scan_tokens (s : string) :
  forall skip t, In t (Sha.scan skip s) ->
    String.length t = 40
    /\ Forall (fun a => Sha.hex a = true) (list_ascii_of_string t).
Proof.
  induction s as [| a s IH]; intros skip t Hin; [destruct Hin |].
  cbn [Sha.scan] in Hin. destruct skip as [| k].
  - destruct (Sha.take_hex 40 (String a s)) as [t0 |] eqn:Ht.
    + destruct Hin as [<- | Hin].
      * destruct (take_hex_shape _ _ _ Ht) as (Hlen & Hall & _). now split.
      * exact (IH _ _ Hin).
    + exact (IH _ _ Hin).
  - exact (IH _ _ Hin).
Qed.

Lemma append_nil_l (s : string) : "" +:+ s = s.
Proof. reflexivity. Qed.

Lemma append_cons (a : ascii) (s t : string) : String a s +:+ t = String a (s +:+ t).
Proof. reflexivity. Qed.

(** No token is found exactly when no position of the text starts forty
    characters of the class. *)
Lemma FindAllString_none (s : string) :
  Sha.FindAllString s = [] <->
  forall pre post, s = pre +:+ post -> Sha.take_hex 40 post = None.
Proof.
  unfold Sha.FindAllString. induction s as [| a s IH].
  - split; [| reflexivity].
    intros _ pre post Heq. destruct pre.
    + rewrite append_nil_l in Heq. subst post. reflexivity.
    + rewrite append_cons in Heq. discriminate.
  - cbn [Sha.scan]. split.
    + intros Hnil pre post Heq.
      destruct (Sha.take_hex 40 (String a s)) as [t0 |] eqn:Ht; [discriminate |].
      destruct pre as [| b pre].
      * rewrite append_nil_l in Heq. subst post. exact Ht.
      * rewrite append_cons in Heq. inversion Heq; subst.
        apply (proj1 IH Hnil pre post). reflexivity.
    + intros Hall.
      rewrite (Hall EmptyString (String a s) eq_refl).
      apply IH. intros pre post Heq. apply (Hall (String a pre) post).
      rewrite append_cons. now rewrite Heq.
Qed.

Lemma append_inj_l (t a b : string) : t +:+ a = t +:+ b -> a = b.
Proof.
  induction t as [| c t IH]; [now rewrite !append_nil_l |].
  rewrite !append_cons. intros H. inversion H. auto.
Qed.

Lemma append_eq_nil (pre post : string) : pre +:+ post = "" -> post = "".
Proof.
  destruct pre; [now rewrite append_nil_l |]. rewrite append_cons. discriminate.
Qed.

Lemma take_hex_complete (t : string) :
  forall post,
    Forall (fun a => Sha.hex a = true) (list_ascii_of_string t) ->
    Sha.take_hex (String.length t) (t +:+ post) = Some t.
Proof.
  induction t as [| a t IH]; intros post Hall; [reflexivity |].
  rewrite append_cons. cbn [String.length Sha.take_hex].
  cbn [list_ascii_of_string] in Hall. inversion Hall as [| ? ? Ha Hrest]; subst.
  now rewrite Ha, IH.
Qed.

Lemma string_length_append (s t : string) :
  String.length (s +:+ t) = String.length s + String.length t.
Proof.
  induction s as [| a s IH]; [reflexivity |].
  rewrite append_cons. cbn [String.length]. now rewrite IH.
Qed.

Lemma starts_token_take_hex (s : string) :
  starts_token s <-> exists t, Sha.take_hex 40 s = Some t.
Proof.
  split.
  - intros (t & post & -> & Hlen & Hall). exists t.
    rewrite <- Hlen. now apply take_hex_complete.
  - intros (t & Ht). destruct (take_hex_shape _ _ _ Ht) as (Hlen & Hall & rest & Hrest).
    exists t, rest. auto.
Qed.

Lemma not_starts_token (s : string) :
  ~ starts_token s <-> Sha.take_hex 40 s = None.
Proof.
  rewrite starts_token_take_hex. destruct (Sha.take_hex 40 s) as [t |].
  - split; [intros H; exfalso; apply H; eauto | discriminate].
  - split; [reflexivity | intros _ (t & Ht); discriminate].
Qed.

Lemma scan_nil_no_token (s : string) :
  Sha.FindAllString s = [] <-> ~ has_token s.
Proof.
  rewrite FindAllString_none. split.
  - intros Hnone (pre & t & post & Hs & Hlen & Hall).
    specialize (Hnone pre (t +:+ post) Hs).
    rewrite <- Hlen, take_hex_complete in Hnone by exact Hall. discriminate.
  - intros Hno pre post Hs. apply not_starts_token.
    intros (t & rest & Hpost & Hlen & Hall). apply Hno.
    exists pre, t, rest. subst post. auto.
Qed.

(** After a match the scan passes the rest of the token. *)
Lemma scan_skip (t : string) :
  forall rest, Sha.scan (String.length t) (t +:+ rest) = Sha.scan 0 rest.
Proof.
  induction t as [| a t IH]; intros rest; [now rewrite append_nil_l |].
  rewrite append_cons. cbn [String.length Sha.scan]. apply IH.
Qed.

Lemma scan_match (s t : string) :
  Sha.take_hex 40 s = Some t ->
  exists rest, s = t +:+ rest /\ Sha.scan 0 s = t :: Sha.scan 0 rest.
Proof.
  intros Ht. destruct (take_hex_shape _ _ _ Ht) as (Hlen & _ & rest & Hrest).
  exists rest. split; [exact Hrest |].
  destruct t as [| a t']; [discriminate |].
  rewrite Hrest in Ht |- *. rewrite append_cons in Ht |- *.
  cbn [Sha.scan]. rewrite Ht. f_equal.
  cbn [String.length] in Hlen. injection Hlen as Hlen.
  rewrite <- Hlen. apply scan_skip.
Qed.

Lemma scan_nomatch (a : ascii) (s : string) :
  Sha.take_hex 40 (String a s) = None ->
  Sha.scan 0 (String a s) = Sha.scan 0 s.
Proof. intros Hn. cbn [Sha.scan]. now rewrite Hn. Qed.

(** Positions that start no token are passed one by one. *)
Lemma scan_gap (gap : string) :
  forall s,
    (forall pre post, gap = pre +:+ post -> post <> "" -> ~ starts_token (post +:+ s)) ->
    Sha.scan 0 (gap +:+ s) = Sha.scan 0 s.
Proof.
  induction gap as [| a gap IH]; intros s Hgap; [now rewrite append_nil_l |].
  rewrite append_cons, scan_nomatch.
  - apply IH. intros pre post Heq Hne. apply (Hgap (String a pre) post); [| exact Hne].
    rewrite append_cons. now rewrite Heq.
  - rewrite <- append_cons. apply not_starts_token.
    apply (Hgap "" (String a gap)); [now rewrite append_nil_l | discriminate].
Qed.

(** The scan finds the tokens of the text, and nothing else does. *)
Lemma tokens_in_unique (s : string) (ts : list string) :
  tokens_in s ts -> ts = Sha.FindAllString s.
Proof.
  induction 1 as [s Hno | s gap t rest ts Hs Hlen Hall Hgap Hrest IH].
  - symmetry. now apply scan_nil_no_token.
  - subst s. unfold Sha.FindAllString in *.
    rewrite (scan_gap gap (t +:+ rest) Hgap).
    assert (Sha.take_hex 40 (t +:+ rest) = Some t) as Ht
      by (rewrite <- Hlen; now apply take_hex_complete).
    destruct (scan_match _ _ Ht) as (rest' & Heq & Hscan).
    apply append_inj_l in Heq. subst rest'. rewrite Hscan. now rewrite IH.
Qed.

Lemma tokens_in_shift (a : ascii) (s : string) (ts : list string) :
  ~ starts_token (String a s) -> tokens_in s ts -> tokens_in (String a s) ts.
Proof.
  intros Hhead Hin.
  destruct Hin as [s Hno | s gap t rest ts Hs Hlen Hall Hgap Hrest].
  - apply tokens_none. intros (pre & t & post & Heq & Hlen & Hall).
    destruct pre as [| b pre].
    + apply Hhead. exists t, post. rewrite append_nil_l in Heq. auto.
    + rewrite append_cons in Heq. inversion Heq; subst.
      apply Hno. exists pre, t, post. auto.
  - apply (tokens_cons _ (String a gap) t rest ts);
      [| exact Hlen | exact Hall | | exact Hrest].
    + rewrite append_cons. now rewrite Hs.
    + intros pre post Heq Hne. destruct pre as [| b pre].
      * rewrite append_nil_l in Heq. subst post.
        rewrite append_cons, <- Hs. exact Hhead.
      * rewrite append_cons in Heq. inversion Heq; subst.
        now apply (Hgap pre post).
Qed.

Lemma tokens_in_scan_bounded (n : nat) :
  forall s, String.length s <= n -> tokens_in s (Sha.FindAllString s).
Proof.
  assert (tokens_in "" (Sha.FindAllString "")) as Hempty.
  { apply tokens_none. intros (pre & t & post & Heq & Hlen & _).
    apply (f_equal String.length) in Heq.
    rewrite !string_length_append in Heq. simpl in Heq. lia. }
  induction n as [| n IH]; intros s Hs.
  - destruct s; [exact Hempty | simpl in Hs; lia].
  - destruct s as [| a s]; [exact Hempty |].
    unfold Sha.FindAllString.
    destruct (Sha.take_hex 40 (String a s)) as [t |] eqn:Ht.
    + destruct (scan_match _ _ Ht) as (rest & Heq & Hscan). rewrite Hscan.
      destruct (take_hex_shape _ _ _ Ht) as (Hlen & Hall & _).
      apply (tokens_cons _ "" t rest); [exact Heq | exact Hlen | exact Hall | |].
      * intros pre post Hnil Hne. symmetry in Hnil.
        apply append_eq_nil in Hnil. congruence.
      * apply IH. apply (f_equal String.length) in Heq.
        rewrite string_length_append in Heq. simpl in Heq, Hs. lia.
    + rewrite (scan_nomatch _ _ Ht). apply tokens_in_shift.
      * now apply not_starts_token.
      * apply IH. simpl in Hs. lia.
Qed.

Lemma tokens_in_scan (s : string) : tokens_in s (Sha.FindAllString s).
Proof. apply (tokens_in_scan_bounded (String.length s)). lia. Qed.

(** C4. The need-update decision for one (package, cluster) pair: a
    failing query tool means "needs update"; so does an output that
    contains no run of forty characters of [0-9a-f]; otherwise, with the
    tokens of the output being its leftmost, non-overlapping runs of
    forty such characters, the pair is up to date exactly when the last
    token is the declared revision.  Every output has its tokens, they
    are determined by the text, and there is none exactly when the text
    has no such run. *)
Theorem need_update_decision (w : World) (p : Package) (cluster : string) :
  (forall err, package_versions w cluster (Project p) = CmdFail err ->
     fst (clusterOkToUpdate w p cluster) = true)
  /\ (forall out, package_versions w cluster (Project p) = CmdDone out ->
        ~ has_token out ->
        fst (clusterOkToUpdate w p cluster) = true)
  /\ (forall out tokens latest,
        package_versions w cluster (Project p) = CmdDone out ->
        tokens_in out tokens ->
        last tokens = Some latest ->
        (latest = Revision p -> fst (clusterOkToUpdate w p cluster) = false)
        /\ (latest <> Revision p -> fst (clusterOkToUpdate w p cluster) = true))
  /\ (forall out,
        tokens_in out (Sha.FindAllString out)
        /\ (forall tokens, tokens_in out tokens -> tokens = Sha.FindAllString out)
        /\ (Sha.FindAllString out = [] <-> ~ has_token out))
  /\ (forall out t, In t (Sha.FindAllString out) ->
        String.length t = 40
        /\ Forall (fun a => Sha.hex a = true) (list_ascii_of_string t)).
Proof.
  unfold clusterOkToUpdate. split; [| split; [| split; [| split]]].
  - intros err ->. reflexivity.
  - intros out -> Hno. apply scan_nil_no_token in Hno. now rewrite Hno.
  - intros out tokens latest -> Htok Hlast.
    apply tokens_in_unique in Htok. subst tokens. rewrite Hlast.
    unfold Str.eqb. split.
    + intros ->. now rewrite String.eqb_refl.
    + intros Hne.
      destruct (String.eqb_spec (Revision p) latest) as [Heq | _];
        [congruence | reflexivity].
  - intros out. split; [apply tokens_in_scan |].
    split; [apply tokens_in_unique | apply scan_nil_no_token].
  - intros out t Hin. exact (scan_tokens _ _ _ Hin).
Qed.

(** The store of a cluster lists an old revision and then the declared
    one: the tokens of the output are these two and the cluster is up to
    date. *)
Lemma need_update_decision_witness :
  tokens_in ("v1 " +:+ Sample.rev_old +:+ " v2 " +:+ Sample.rev_new +:+ " ")
            [Sample.rev_old; Sample.rev_new]
  /\ fst (clusterOkToUpdate Sample.world_current
            (mkPackage "http://ci/app.tgz" "" "app" Sample.rev_new ∅ ∅ true) "smf1")
     = false.
Proof.
  destruct (need_update_decision Sample.world_current
              (mkPackage "http://ci/app.tgz" "" "app" Sample.rev_new ∅ ∅ true) "smf1")
    as (_ & _ & Hlast & Htokens & _).
  destruct (Htokens ("v1 " +:+ Sample.rev_old +:+ " v2 " +:+ Sample.rev_new +:+ " "))
    as (Hin & _ & _).
  assert (Sha.FindAllString
            ("v1 " +:+ Sample.rev_old +:+ " v2 " +:+ Sample.rev_new +:+ " ")
          = [Sample.rev_old; Sample.rev_new]) as Hscan by (vm_compute; reflexivity).
  rewrite Hscan in Hin. split; [exact Hin |].
  exact (proj1 (Hlast _ _ Sample.rev_new eq_refl Hin eq_refl) eq_refl).
Defined.

Example need_update_query_fails :
  fst (clusterOkToUpdate Sample.world Sample.manifest_app "atla") = true.
Proof. reflexivity. Qed.

Example need_update_last_token_current :
  clusterOkToUpdate Sample.world_current Sample.manifest_app "smf1"
  = (false, " does not need to be updated.").
Proof. vm_compute. reflexivity. Qed.

Example need_update_last_token_other :
  fst (clusterOkToUpdate Sample.world_current
         (mkPackage "http://ci/app.tgz" "" "app" Sample.rev_old ∅ ∅ true) "smf1") = true.
Proof. vm_compute. reflexivity. Qed.

(** ** The loops of [main] *)

Lemma range_pkgs_spec (body : nat -> Package -> option (task * task_end))
    (ps : list Package) :
  forall i acc,
    range_pkgs body i ps acc =
    (loop_records body i ps,
     (fst acc ++ loop_tasks body i ps,
      mkFutures (Channels (snd acc) ++ loop_sends body i ps)
                (Nat.iter (length (loop_tasks body i ps)) int_incr
                          (ItemsInChannels (snd acc))))).
Proof.
  induction ps as [| p rest IH]; intros i [ts [ch n]].
  - simpl. now rewrite !app_nil_r.
  - cbn [range_pkgs loop_records loop_tasks loop_sends].
    destruct (body i p) as [[t e] |].
    + rewrite IH. cbn [fst snd relay AddFuture Channels ItemsInChannels length].
      rewrite <- !app_assoc, Nat.iter_succ_r. reflexivity.
    + rewrite IH. reflexivity.
Qed.

Lemma run_loop_spec (body : nat -> Package -> option (task * task_end)) (s : state) :
  run_loop body s =
  mkState (loop_records body 0 (pkgs s))
          (mkFutures (Channels (futures s) ++ loop_sends body 0 (pkgs s))
                     (Nat.iter (length (loop_tasks body 0 (pkgs s))) int_incr
                               (ItemsInChannels (futures s))))
          (spawned s ++ loop_tasks body 0 (pkgs s))
          (drains s).
Proof. unfold run_loop. rewrite range_pkgs_spec. reflexivity. Qed.

Lemma loop_records_length body ps : forall i, length (loop_records body i ps) = length ps.
Proof.
  induction ps as [| p rest IH]; intros i; simpl; [reflexivity |].
  destruct (body i p) as [[t e] |]; simpl; now rewrite IH.
Qed.

Lemma loop_tasks_length_le body ps : forall i, length (loop_tasks body i ps) <= length ps.
Proof.
  induction ps as [| p rest IH]; intros i; simpl; [lia |].
  destruct (body i p) as [[t e] |]; simpl; specialize (IH (S i)); lia.
Qed.

Lemma loop_sends_length_le body ps :
  forall i, length (loop_sends body i ps) <= length (loop_tasks body i ps).
Proof.
  induction ps as [| p rest IH]; intros i; simpl; [lia |].
  destruct (body i p) as [[t e] |]; [| apply IH].
  rewrite length_app. specialize (IH (S i)). destruct e; simpl; lia.
Qed.

(** A loop all of whose goroutines send delivers as many values as it
    started goroutines. *)
Lemma loop_sends_length_all body ps :
  (forall i p t e, body i p = Some (t, e) -> length (sends e) = 1) ->
  forall i, length (loop_sends body i ps) = length (loop_tasks body i ps).
Proof.
  intros Hall. induction ps as [| p rest IH]; intros i; simpl; [reflexivity |].
  destruct (body i p) as [[t e] |] eqn:Hb; [| apply IH].
  rewrite length_app, (Hall _ _ _ _ Hb), IH. reflexivity.
Qed.

Lemma loop_tasks_elem body ps :
  forall i0 t,
    In t (loop_tasks body i0 ps) <->
    exists j p e, ps !! j = Some p /\ body (i0 + j) p = Some (t, e).
Proof.
  induction ps as [| p rest IH]; intros i0 t.
  - simpl. split; [intros [] | intros (j & q & e & Hj & _); destruct j; discriminate].
  - cbn [loop_tasks]. split.
    + intros Hin. destruct (body i0 p) as [[t0 e0] |] eqn:Hb.
      * destruct Hin as [<- | Hin].
        -- exists 0, p, e0. rewrite Nat.add_0_r. now split.
        -- apply IH in Hin as (j & q & e & Hj & Hq).
           exists (S j), q, e. split; [exact Hj |].
           now replace (i0 + S j) with (S i0 + j) by lia.
      * apply IH in Hin as (j & q & e & Hj & Hq).
        exists (S j), q, e. split; [exact Hj |].
        now replace (i0 + S j) with (S i0 + j) by lia.
    + intros (j & q & e & Hj & Hq). destruct j as [| j].
      * simpl in Hj. inversion Hj; subst q. rewrite Nat.add_0_r in Hq.
        rewrite Hq. now left.
      * simpl in Hj.
        assert (In t (loop_tasks body (S i0) rest)) as Hin.
        { apply IH. exists j, q, e. split; [exact Hj |].
          now replace (S i0 + j) with (i0 + S j) by lia. }
        destruct (body i0 p) as [[t0 e0] |]; [now right | exact Hin].
Qed.

Lemma loop_records_lookup body ps :
  forall i0 j p, ps !! j = Some p ->
    loop_records body i0 ps !! j
    = Some (match body (i0 + j) p with
            | Some (_, e) => record_after e
            | None => p
            end).
Proof.
  induction ps as [| q rest IH]; intros i0 j p Hj; [destruct j; discriminate |].
  destruct j as [| j].
  - simpl in Hj. inversion Hj; subst q. rewrite Nat.add_0_r.
    cbn [loop_records]. destruct (body i0 p) as [[t e] |]; reflexivity.
  - simpl in Hj. cbn [loop_records].
    replace (i0 + S j) with (S i0 + j) by lia.
    destruct (body i0 q) as [[t e] |]; simpl; now apply IH.
Qed.

(** ** Gathering the manifests *)

Lemma arrange_Permutation {A} (picks : list nat) :
  forall l : list A, Permutation (arrange picks l) l.
Proof.
  induction picks as [| k picks IH]; intros l; simpl; [reflexivity |].
  destruct (l !! (k mod length l)) as [x |] eqn:Hx; [| reflexivity].
  transitivity (x :: delete (k mod length l) l).
  - constructor. apply IH.
  - symmetry. apply delete_Permutation, Hx.
Qed.

Lemma arrange_length {A} (picks : list nat) (l : list A) :
  length (arrange picks l) = length l.
Proof. apply Permutation_length, arrange_Permutation. Qed.

Lemma register_decoders_spec (w : World) (matched : list string) :
  forall f,
    register_decoders w matched f =
    mkFutures (Channels f ++ map (fun v => record_after (decodeJsonFile w v)) matched)
              (Nat.iter (length matched) int_incr (ItemsInChannels f)).
Proof.
  induction matched as [| v rest IH]; intros [ch n].
  - simpl. now rewrite app_nil_r.
  - cbn [register_decoders]. rewrite IH.
    cbn [relay AddFuture Channels ItemsInChannels decodeJsonFile sends record_after
         map length].
    rewrite <- app_assoc, Nat.iter_succ_r. reflexivity.
Qed.

Lemma GetAllPackages_spec (w : World) (matched : list string) :
  (Z.of_nat (length matched) <= int_max)%Z ->
  GetAllPackages w matched newFutures = Some (decoded w matched, mkFutures [] 0).
Proof.
  intros Hn. unfold GetAllPackages. rewrite register_decoders_spec.
  cbn [newFutures Channels ItemsInChannels app].
  rewrite iter_int_incr by (simpl; lia). rewrite Z.add_0_l.
  rewrite recv_loop_enough by (rewrite arrange_length, length_map; lia).
  fold (decoded w matched).
  assert (length (decoded w matched) = length matched) as Hlen
    by (unfold decoded; now rewrite arrange_length, length_map).
  rewrite take_ge, drop_ge by lia. reflexivity.
Qed.

(** ** The upload stage *)

Lemma stale_clusters_spec (p : Package) (clusters : list string) :
  forall c, In c (stale_clusters clusters p) <->
            In c clusters /\ map_get (NeedUpdate p) c = true.
Proof.
  induction clusters as [| c0 rest IH]; intros c; simpl; [tauto |].
  destruct (map_get (NeedUpdate p) c0) eqn:H0; simpl; rewrite IH.
  - split; [intros [<- | [H1 H2]]; auto | intros [[<- | H1] H2]; auto].
  - split; [intros [H1 H2]; auto | intros [[<- | H1] H2]; [congruence | auto]].
Qed.

Lemma upload_plan_elem (ps : list Package) :
  forall i0 x,
    In x (upload_plan i0 ps) <->
    exists j p, fst x = i0 + j /\ ps !! j = Some p
                /\ In (snd x) (stale_clusters AllClusters p).
Proof.
  induction ps as [| p rest IH]; intros i0 [i c].
  - simpl. split; [intros [] | intros (j & q & _ & Hj & _); destruct j; discriminate].
  - cbn [upload_plan]. rewrite in_app_iff, in_map_iff, IH. cbn [fst snd]. split.
    + intros [(c0 & Heq & Hin) | (j & q & Hi & Hj & Hin)].
      * inversion Heq; subst. exists 0, p. rewrite Nat.add_0_r. auto.
      * exists (S j), q. split; [lia | auto].
    + intros (j & q & Hi & Hj & Hin). destruct j as [| j].
      * simpl in Hj. inversion Hj; subst q. left. exists c.
        split; [f_equal; lia | exact Hin].
      * right. exists j, q. split; [lia | auto].
Qed.

Lemma upload_plan_bound (ps : list Package) (x : nat * string) :
  In x (upload_plan 0 ps) -> fst x < length ps.
Proof.
  intros Hin. apply upload_plan_elem in Hin as (j & p & Hi & Hj & _).
  apply lookup_lt_Some in Hj. lia.
Qed.

Lemma upload_plan_length (ps : list Package) :
  forall i0, length (upload_plan i0 ps) <= length AllClusters * length ps.
Proof.
  assert (forall p cs, length (stale_clusters cs p) <= length cs) as Hs.
  { intros p cs. induction cs as [| c cs IH]; simpl; [lia |].
    destruct (map_get (NeedUpdate p) c); simpl; lia. }
  induction ps as [| p rest IH]; intros i0; simpl; [lia |].
  rewrite length_app, length_map.
  specialize (IH (S i0)). specialize (Hs p AllClusters).
  simpl in *. lia.
Qed.

Lemma erase_set_Updated (m : gmap string bool) (p : Package) :
  erase_Updated (set_Updated m p) = erase_Updated p.
Proof. reflexivity. Qed.

Lemma map_erase_alter (ps : list Package) (i : nat) :
  map erase_Updated (alter (set_Updated ∅) i ps) = map erase_Updated ps.
Proof.
  revert i. induction ps as [| p rest IH]; intros [| i]; simpl; try reflexivity.
  f_equal. apply IH.
Qed.

Lemma map_erase_insert (ps : list Package) (i : nat) (p q : Package) :
  ps !! i = Some p -> erase_Updated q = erase_Updated p ->
  map erase_Updated (<[i := q]> ps) = map erase_Updated ps.
Proof.
  revert i. induction ps as [| p0 rest IH]; intros [| i] Hi Hq; simpl in *;
    try discriminate.
  - inversion Hi; subst. now rewrite Hq.
  - f_equal. now apply IH.
Qed.

Lemma UpdatePackage_run_erase (w : World) (cluster : string) (p : Package) :
  erase_Updated (record_after (UpdatePackage_run w cluster p)) = erase_Updated p.
Proof.
  unfold UpdatePackage_run. destruct (current_user w); [| reflexivity].
  destruct (package_add_version _ _ _ _ _ _); reflexivity.
Qed.

Ltac inv_side :=
  repeat split; intros; try discriminate; try congruence; auto; try lia.

Section UploadStage.

Variable w : World.
Variable s0 : state.
Hypothesis pool_empty : futures s0 = mkFutures [] 0.
Hypothesis plan_small :
  (Z.of_nat (length (upload_plan 0 (pkgs s0))) <= int_max)%Z.

Lemma upload_inv_start : upload_inv w s0 (upload_start s0).
Proof.
  exists 0. cbn [upload_start u_todo u_main u_running u_panicked].
  rewrite pool_empty, drop_0, take_0, app_nil_r. simpl.
  repeat split; try lia; try discriminate; auto.
Qed.

Lemma upload_inv_step (c : choice) (u : upload_state) :
  upload_inv w s0 u -> upload_inv w s0 (upload_step w c u).
Proof.
  intros Hinv. unfold upload_step.
  destruct (u_panicked u) eqn:Hp; [exact Hinv |].
  destruct Hinv as (a & Ha & Htodo & Hsp & Hdr & Her & Hrun & Hcnt & Hpan & Hnone).
  destruct (Hcnt Hp) as [Hn Hlen].
  destruct c as [| k].
  - (* a call of main *)
    destruct (u_todo u) as [| [i cluster] rest] eqn:Ht.
    { exists a. rewrite Ht, Hp. inv_side. }
    assert (upload_plan 0 (pkgs s0) !! a = Some (i, cluster)) as Hat.
    { rewrite <- (Nat.add_0_r a), <- lookup_drop, <- Htodo. reflexivity. }
    pose proof (lookup_lt_Some _ _ _ Hat) as Halt.
    exists (S a). cbn [u_todo u_main u_running u_panicked upload_spawn
                       pkgs futures spawned drains AddFuture Channels ItemsInChannels].
    split; [lia |].
    split; [rewrite (drop_S _ _ _ Hat) in Htodo; now inversion Htodo |].
    split; [rewrite (take_S_r _ _ _ Hat), map_app, Hsp, <- app_assoc; reflexivity |].
    split; [exact Hdr |].
    split; [now rewrite map_erase_alter |].
    split.
    { apply Forall_app. split; [exact Hrun |].
      constructor; [| constructor].
      apply upload_plan_bound. eapply list_elem_of_In, list_elem_of_lookup_2, Hat. }
    split.
    { intros _. rewrite Hn, int_incr_small by lia.
      rewrite length_app. simpl. lia. }
    inv_side.
  - (* the end of a goroutine *)
    destruct (u_running u !! k) as [[i cluster] |] eqn:Hk.
    2:{ exists a. rewrite Hp. inv_side. }
    assert (i < length (pkgs (u_main u))) as Hi.
    { rewrite Forall_forall in Hrun.
      specialize (Hrun (i, cluster)). cbn [fst] in Hrun.
      assert (length (pkgs (u_main u)) = length (pkgs s0)) as ->
        by (rewrite <- (length_map erase_Updated), Her; apply length_map).
      apply Hrun. eapply list_elem_of_lookup_2, Hk. }
    destruct (lookup_lt_is_Some_2 _ _ Hi) as [p Hpi].
    assert (length (delete k (u_running u)) + 1 = length (u_running u)) as Hdel.
    { rewrite length_delete by eauto.
      apply lookup_lt_Some in Hk. lia. }
    pose proof (Forall_delete _ _ k Hrun) as Hrun'.
    unfold upload_finish. rewrite Hpi.
    pose proof (UpdatePackage_run_erase w cluster p) as Hera.
    unfold UpdatePackage_run in *.
    destruct (current_user w) as [usr |] eqn:Hu.
    + exists a.
      destruct (package_add_version w cluster (Revision p) usr (Project p) (File p));
        cbn [u_todo u_main u_running u_panicked pkgs futures spawned drains
             relay sends record_after Channels ItemsInChannels] in *;
        rewrite (map_erase_insert _ _ p) by assumption;
        rewrite length_app; cbn [length]; inv_side.
    + exists a. cbn [u_todo u_main u_running u_panicked]. inv_side.
Qed.

Lemma upload_inv_steps (cs : list choice) :
  forall u, upload_inv w s0 u -> upload_inv w s0 (upload_steps w cs u).
Proof.
  unfold upload_steps.
  induction cs as [| c cs IH]; intros u Hu; simpl; [exact Hu |].
  apply IH, upload_inv_step, Hu.
Qed.

Lemma upload_inv_iter (c : choice) (n : nat) :
  forall u, upload_inv w s0 u -> upload_inv w s0 (Nat.iter n (upload_step w c) u).
Proof.
  induction n as [| n IH]; intros u Hu; simpl; [exact Hu |].
  apply upload_inv_step, IH, Hu.
Qed.

Lemma upload_step_panicked (c : choice) (u : upload_state) :
  u_panicked u = true -> upload_step w c u = u.
Proof. intros Hp. unfold upload_step. now rewrite Hp. Qed.

Lemma upload_iter_panicked (c : choice) (n : nat) (u : upload_state) :
  u_panicked u = true -> Nat.iter n (upload_step w c) u = u.
Proof.
  intros Hp. induction n as [| n IH]; simpl; [reflexivity |].
  rewrite IH. now apply upload_step_panicked.
Qed.

Lemma upload_step_Task_todo (k : nat) (u : upload_state) :
  u_todo (upload_step w (Task k) u) = u_todo u.
Proof.
  unfold upload_step. destruct (u_panicked u); [reflexivity |].
  destruct (u_running u !! k) as [[i cluster] |]; [| reflexivity].
  destruct (upload_finish w i cluster (u_main u)). reflexivity.
Qed.

(** [main] gets through its remaining calls. *)
Lemma settle_calls (n : nat) :
  forall u, length (u_todo u) = n -> u_panicked u = false ->
    u_todo (Nat.iter n (upload_step w Main) u) = []
    /\ u_panicked (Nat.iter n (upload_step w Main) u) = false.
Proof.
  induction n as [| n IH]; intros u Hlen Hp.
  - simpl. split; [| exact Hp]. now destruct (u_todo u).
  - rewrite Nat.iter_succ_r.
    destruct (u_todo u) as [| [i cluster] rest] eqn:Ht; [discriminate |].
    apply IH; unfold upload_step; rewrite Hp, Ht; simpl.
    + simpl in Hlen. lia.
    + reflexivity.
Qed.

(** Every goroutine still running ends, unless one panics. *)
Lemma settle_ends (n : nat) :
  forall u, length (u_running u) = n ->
    let u' := Nat.iter n (upload_step w (Task 0)) u in
    u_todo u' = u_todo u
    /\ (u_panicked u' = true \/ u_running u' = []).
Proof.
  induction n as [| n IH]; intros u Hlen.
  - simpl. split; [reflexivity |]. right. now destruct (u_running u).
  - cbv zeta. rewrite Nat.iter_succ_r.
    destruct (u_panicked u) eqn:Hp.
    { rewrite upload_step_panicked, upload_iter_panicked by exact Hp. auto. }
    destruct (IH (upload_step w (Task 0) u)) as [Htodo Hend].
    + unfold upload_step. rewrite Hp.
      destruct (u_running u) as [| [i cluster] rest] eqn:Hr; [discriminate |].
      simpl. destruct (upload_finish w i cluster (u_main u)). simpl.
      simpl in Hlen. lia.
    + split; [| exact Hend].
      rewrite Htodo. apply upload_step_Task_todo.
Qed.

Lemma upload_stage_inv (sched : list choice) :
  upload_inv w s0 (upload_stage w sched s0).
Proof.
  unfold upload_stage, upload_settle.
  apply upload_inv_iter, upload_inv_iter, upload_inv_steps, upload_inv_start.
Qed.

Lemma upload_stage_settled (sched : list choice) :
  u_panicked (upload_stage w sched s0) = false ->
  u_todo (upload_stage w sched s0) = [] /\ u_running (upload_stage w sched s0) = [].
Proof.
  unfold upload_stage, upload_settle. intros Hp.
  set (u1 := upload_steps w sched (upload_start s0)) in *.
  set (u2 := Nat.iter (length (u_todo u1)) (upload_step w Main) u1) in *.
  destruct (settle_ends (length (u_running u2)) u2 eq_refl) as [Htodo Hend].
  cbv zeta in Htodo, Hend.
  destruct Hend as [Hend | Hend]; [congruence |].
  split; [| exact Hend].
  rewrite Htodo.
  destruct (u_panicked u1) eqn:Hp1.
  - exfalso. unfold u2 in Hp.
    rewrite (upload_iter_panicked Main _ u1 Hp1) in Hp.
    rewrite (upload_iter_panicked (Task 0) _ u1 Hp1) in Hp. congruence.
  - apply (settle_calls _ u1 eq_refl Hp1).
Qed.

(** The stage as [main] sees it when no goroutine panics: every call
    of the plan has been made, every goroutine has delivered, and only
    the [Updated] maps have changed. *)
Lemma upload_stage_done (sched : list choice) :
  let u := upload_stage w sched s0 in
  let plan := upload_plan 0 (pkgs s0) in
  u_panicked u = false ->
  spawned (u_main u) = spawned s0 ++ map upload_task plan
  /\ drains (u_main u) = drains s0
  /\ map erase_Updated (pkgs (u_main u)) = map erase_Updated (pkgs s0)
  /\ ItemsInChannels (futures (u_main u)) = Z.of_nat (length plan)
  /\ length (Channels (futures (u_main u))) = length plan
  /\ (plan <> [] -> current_user w <> None).
Proof.
  intros u plan Hp.
  destruct (upload_stage_settled sched Hp) as [Htodo Hrun].
  destruct (upload_stage_inv sched)
    as (a & Ha & Htodo' & Hsp & Hdr & Her & _ & Hcnt & _ & Hnone).
  fold u in Htodo, Hrun, Htodo', Hsp, Hdr, Her, Hcnt, Hnone.
  fold plan in Ha, Htodo', Hsp.
  destruct (Hcnt Hp) as [Hn Hlen].
  assert (a = length plan) as ->.
  { rewrite Htodo in Htodo'. symmetry in Htodo'.
    apply (f_equal length) in Htodo'. rewrite length_drop in Htodo'.
    simpl in Htodo'. lia. }
  rewrite take_ge in Hsp by lia.
  rewrite Hrun in Hlen. simpl in Hlen.
  repeat split; auto; try lia.
  intros Hne Hu. specialize (Hnone Hu). rewrite Hnone in Hlen. simpl in Hlen.
  destruct plan; [congruence | discriminate].
Qed.

Lemma upload_stage_panicked (sched : list choice) :
  u_panicked (upload_stage w sched s0) = true ->
  current_user w = None /\ upload_plan 0 (pkgs s0) <> [].
Proof.
  intros Hp.
  destruct (upload_stage_inv sched) as (a & Ha & _ & _ & _ & _ & _ & _ & Hpan & _).
  destruct (Hpan Hp) as [Hu Hpos]. split; [exact Hu |].
  intros Hnil. rewrite Hnil in Ha. simpl in Ha. lia.
Qed.

End UploadStage.

(** ** [main], stage by stage *)

Lemma block_returns (reason : string) (s : state) (ch : list Package) (k : nat) :
  futures s = mkFutures ch (Z.of_nat k) -> length ch = k ->
  block reason s
  = inl (mkState (pkgs s) (mkFutures [] 0) (spawned s) (drains s ++ [reason])).
Proof.
  intros Hf Hk. unfold block. cbn [futures pkgs spawned drains].
  rewrite Hf, (BlockUntilComplete_exact ch k Hk). reflexivity.
Qed.

Lemma block_hangs (reason : string) (s : state) (ch : list Package) (k : nat) :
  futures s = mkFutures ch (Z.of_nat k) -> length ch < k ->
  block reason s
  = inr (mkState (pkgs s) (futures s) (spawned s) (drains s ++ [reason])).
Proof.
  intros Hf Hk. unfold block. cbn [futures pkgs spawned drains].
  rewrite Hf, (BlockUntilComplete_starved ch k Hk). reflexivity.
Qed.

Lemma run_loop_pool (body : nat -> Package -> option (task * task_end)) (s : state) :
  futures s = mkFutures [] 0 ->
  (Z.of_nat (length (pkgs s)) <= int_max)%Z ->
  run_loop body s =
  mkState (loop_records body 0 (pkgs s))
          (mkFutures (loop_sends body 0 (pkgs s))
                     (Z.of_nat (length (loop_tasks body 0 (pkgs s)))))
          (spawned s ++ loop_tasks body 0 (pkgs s))
          (drains s).
Proof.
  intros Hf Hn. rewrite run_loop_spec, Hf. cbn [Channels ItemsInChannels app].
  rewrite iter_int_incr; [reflexivity |].
  pose proof (loop_tasks_length_le body (pkgs s) 0). lia.
Qed.

Lemma validate_body_sends (w : World) i p t e :
  validate_body w i p = Some (t, e) -> length (sends e) = 1.
Proof. unfold validate_body, CheckIfValidPackage. intros H. inversion H. reflexivity. Qed.

Lemma assess_body_sends (w : World) i p t e :
  assess_body w i p = Some (t, e) -> length (sends e) = 1.
Proof.
  unfold assess_body, IsUpdateNeeded. destruct (Valid p); intros H; inversion H.
  reflexivity.
Qed.

Lemma decoded_length (w : World) (matched : list string) :
  length (decoded w matched) = length matched.
Proof. unfold decoded. now rewrite arrange_length, length_map. Qed.

Lemma validated_length (w : World) (matched : list string) :
  length (validated w matched) = length matched.
Proof. unfold validated. now rewrite loop_records_length, decoded_length. Qed.

Lemma assessed_length (w : World) (matched : list string) :
  length (assessed w matched) = length matched.
Proof. unfold assessed. now rewrite loop_records_length, validated_length. Qed.

Lemma downloaded_length (w : World) (basedir : string) (matched : list string) :
  length (downloaded w basedir matched) = length matched.
Proof. unfold downloaded. now rewrite loop_records_length, assessed_length. Qed.

Section Main.

Variable w : World.
Variable pr : Process.
Variables project rootPath : string.
Variable matched : list string.

Hypothesis glob_matched :
  glob pr (path_Join w rootPath (project +:+ ".json")) = matched.
Hypothesis few_manifests : (2 * Z.of_nat (length matched) <= int_max)%Z.

Let basedir := path_Join w (pwd pr) "downloads_tmp".
Let t1 := loop_tasks (validate_body w) 0 (decoded w matched).
Let t2 := loop_tasks (assess_body w) 0 (validated w matched).
Let t3 := loop_tasks (download_body w basedir) 0 (assessed w matched).
Let d3 := loop_sends (download_body w basedir) 0 (assessed w matched).
Let s3 := mkState (downloaded w basedir matched) (mkFutures [] 0)
                  ((t1 ++ t2) ++ t3)
                  ["Checking validity of packages";
                   "Checking which packer clusters need to be updated";
                   "Downloading packages"].

(** No manifest: the first gate. *)
Lemma main_no_manifest :
  matched = [] ->
  main w pr project rootPath = (mkState [] (mkFutures [] 0) [] [], FatalNoPackages).
Proof.
  intros Hm. unfold main. rewrite glob_matched.
  rewrite GetAllPackages_spec by lia. rewrite Hm.
  unfold decoded. simpl. destruct (decode_order w); reflexivity.
Qed.

(** At least one manifest: the run of [main], gate by gate. *)
Lemma main_unfold :
  matched <> [] ->
  main w pr project rootPath =
  match t2 with
  | [] => (mkState (assessed w matched) (mkFutures [] 0) (t1 ++ t2)
                   ["Checking validity of packages"], FatalNoneValid)
  | _ =>
  match t3 with
  | [] => (mkState (downloaded w basedir matched) (mkFutures [] 0) ((t1 ++ t2) ++ t3)
                   ["Checking validity of packages";
                    "Checking which packer clusters need to be updated"],
           ExitUpToDate)
  | _ =>
  if (length d3 <? length t3)%nat
  then (mkState (downloaded w basedir matched)
                (mkFutures d3 (Z.of_nat (length t3))) ((t1 ++ t2) ++ t3)
                ["Checking validity of packages";
                 "Checking which packer clusters need to be updated";
                 "Downloading packages"], Hung)
  else
    let u := upload_stage w (upload_sched pr) s3 in
    if u_panicked u then (u_main u, Panicked)
    else (mkState (pkgs (u_main u)) (mkFutures [] 0) (spawned (u_main u))
                  ["Checking validity of packages";
                   "Checking which packer clusters need to be updated";
                   "Downloading packages"; "Updating packages"], Finished)
  end end.
Proof.
  intros Hne. unfold main. rewrite glob_matched. fold basedir.
  rewrite GetAllPackages_spec by lia.
  pose proof (decoded_length w matched) as Hl0.
  pose proof (validated_length w matched) as Hl1.
  pose proof (assessed_length w matched) as Hl2.
  pose proof (downloaded_length w basedir matched) as Hl3.
  assert (0 < length matched) as Hpos
    by (destruct matched; [congruence | simpl; lia]).
  destruct (Nat.ltb_spec (length (decoded w matched)) 1) as [Hlt | _]; [lia |].
  (* validation *)
  rewrite run_loop_pool; cbn [pkgs futures spawned drains]; [| reflexivity | lia].
  erewrite block_returns; cbn [pkgs futures spawned drains];
    [| reflexivity
     | apply loop_sends_length_all; intros; eapply validate_body_sends; eassumption].
  fold (validated w matched). fold t1.
  (* assessment *)
  rewrite run_loop_pool;
    cbn [pkgs futures spawned drains ItemsInChannels]; [| reflexivity | lia].
  fold t2. fold (assessed w matched).
  pose proof (loop_sends_length_all (assess_body w) (validated w matched)
                (assess_body_sends w) 0) as Hs2.
  fold t2 in Hs2. cbn [app].
  destruct t2 as [| a2 r2] eqn:Ht2.
  { simpl in Hs2. apply length_zero_iff_nil in Hs2. rewrite Hs2. reflexivity. }
  destruct (Z.ltb_spec 0 (Z.of_nat (length (a2 :: r2)))) as [_ | Hbad];
    [| simpl in Hbad; lia].
  cbn [negb].
  erewrite block_returns; cbn [pkgs futures spawned drains];
    [| reflexivity | exact Hs2].
  (* download *)
  rewrite run_loop_pool;
    cbn [pkgs futures spawned drains ItemsInChannels]; [| reflexivity | lia].
  fold t3 d3. fold (downloaded w basedir matched).
  pose proof (loop_sends_length_le (download_body w basedir) (assessed w matched) 0)
    as Hs3.
  fold t3 d3 in Hs3.
  destruct t3 as [| a3 r3] eqn:Ht3.
  { simpl in Hs3.
    assert (d3 = []) as -> by (destruct d3; [reflexivity | simpl in Hs3; lia]).
    reflexivity. }
  destruct (Z.ltb_spec 0 (Z.of_nat (length (a3 :: r3)))) as [_ | Hbad];
    [| simpl in Hbad; lia].
  cbn [negb].
  destruct (Nat.ltb_spec (length d3) (length (a3 :: r3))) as [Hshort | Hfull].
  { erewrite block_hangs; cbn [pkgs futures spawned drains];
      [reflexivity | reflexivity | exact Hshort]. }
  erewrite block_returns; cbn [pkgs futures spawned drains app];
    [| reflexivity | lia].
  (* upload *)
  fold s3. cbv zeta.
  destruct (u_panicked (upload_stage w (upload_sched pr) s3)) eqn:Hp; [reflexivity |].
  assert (Z.of_nat (length (upload_plan 0 (pkgs s3))) <= int_max)%Z as Hplan.
  { pose proof (upload_plan_length (pkgs s3) 0) as Hle.
    change (length (pkgs s3)) with (length (downloaded w basedir matched)) in Hle.
    rewrite Hl3 in Hle. change (length AllClusters) with 2 in Hle. lia. }
  destruct (upload_stage_done w s3 eq_refl Hplan (upload_sched pr) Hp)
    as (Hsp & Hdr & _ & Hn & Hlen & _).
  erewrite block_returns; [| | exact Hlen].
  - rewrite Hdr. reflexivity.
  - destruct (futures (u_main (upload_stage w (upload_sched pr) s3))) as [ch n].
    simpl in Hn. now rewrite Hn.
Qed.

End Main.

(** ** The gates of the driver *)

Lemma assess_tasks_nil (w : World) (ps : list Package) :
  forall i, loop_tasks (assess_body w) i ps = []
            <-> forallb (fun p => negb (Valid p)) ps = true.
Proof.
  induction ps as [| p rest IH]; intros i; simpl; [tauto |].
  unfold assess_body at 1. destruct (Valid p); simpl.
  - split; discriminate.
  - apply IH.
Qed.

Lemma download_tasks_nil (w : World) (basedir : string) (ps : list Package) :
  forall i, loop_tasks (download_body w basedir) i ps = []
            <-> forallb (fun p => negb (any_stale AllClusters p)) ps = true.
Proof.
  induction ps as [| p rest IH]; intros i; cbn [loop_tasks forallb]; [tauto |].
  unfold download_body at 1. destruct (any_stale AllClusters p); cbn [negb andb].
  - split; discriminate.
  - apply IH.
Qed.

Lemma described_gate_some (w : World) (matched : list string) :
  matched <> [] ->
  described_gate w matched =
  if forallb (fun p => negb (Valid p)) (validated w matched) then AbortNoneValid
  else if forallb (fun p => negb (any_stale AllClusters p)) (assessed w matched)
       then ExitClean
       else Proceed.
Proof. intros Hne. destruct matched; [congruence | reflexivity]. Qed.

(** ** The download stage *)

Lemma any_stale_spec (p : Package) (clusters : list string) :
  any_stale clusters p = true <->
  exists c, In c clusters /\ map_get (NeedUpdate p) c = true.
Proof.
  induction clusters as [| c0 rest IH]; simpl.
  - split; [discriminate | intros (c & [] & _)].
  - destruct (map_get (NeedUpdate p) c0) eqn:H0.
    + split; [intros _; exists c0; auto | reflexivity].
    + rewrite IH. split.
      * intros (c & Hin & Hc). exists c. auto.
      * intros (c & [<- | Hin] & Hc); [congruence | exists c; auto].
Qed.

(** The inner loop stops at the first stale cluster: what follows it is
    not looked at. *)
Lemma any_stale_first (p : Package) (pre : list string) (c : string) (post : list string) :
  (forall c', In c' pre -> map_get (NeedUpdate p) c' = false) ->
  map_get (NeedUpdate p) c = true ->
  any_stale (pre ++ c :: post) p = true
  /\ any_stale pre p = false.
Proof.
  induction pre as [| c0 pre IH]; intros Hpre Hc; simpl.
  - now rewrite Hc.
  - rewrite (Hpre c0) by (now left). apply IH; [| exact Hc].
    intros c' Hin. apply Hpre. now right.
Qed.

Lemma download_count (w : World) (basedir : string) (ps : list Package) :
  forall i0 i,
    count_occ task_eq_dec (loop_tasks (download_body w basedir) i0 ps) (TDownload i)
    = if decide (i0 <= i)
      then match ps !! (i - i0) with
           | Some p => if any_stale AllClusters p then 1 else 0
           | None => 0
           end
      else 0.
Proof.
  induction ps as [| p rest IH]; intros i0 i.
  - simpl. destruct (decide (i0 <= i)); reflexivity.
  - cbn [loop_tasks]. unfold download_body at 1.
    destruct (decide (i0 = i)) as [-> | Hne].
    + rewrite Nat.sub_diag. cbn [lookup list_lookup].
      destruct (decide (i <= i)) as [_ | Hbad]; [| lia].
      destruct (any_stale AllClusters p).
      * rewrite count_occ_cons_eq by reflexivity. rewrite IH.
        destruct (decide (S i <= i)); [lia | reflexivity].
      * rewrite IH. destruct (decide (S i <= i)); [lia | reflexivity].
    + destruct (any_stale AllClusters p) eqn:Hs;
        [rewrite count_occ_cons_neq by congruence |];
        (rewrite IH;
         destruct (decide (S i0 <= i)) as [Hle | Hgt];
         destruct (decide (i0 <= i)) as [Hle' | Hgt']; try lia; try reflexivity;
         replace (i - i0) with (S (i - S i0)) by lia; reflexivity).
Qed.

Lemma download_tasks_kind (w : World) (basedir : string) (ps : list Package) :
  forall i0 t, In t (loop_tasks (download_body w basedir) i0 ps) ->
               exists i, t = TDownload i.
Proof.
  intros i0 t Hin. apply loop_tasks_elem in Hin as (j & p & e & _ & Hb).
  unfold download_body in Hb. destruct (any_stale AllClusters p); [| discriminate].
  inversion Hb. eauto.
Qed.

(** C6. The download loop started in any state of [main] starts only
    download goroutines, and for the record at each position exactly one
    when some cluster of the fixed list has its need-update flag set,
    none otherwise, however many clusters are stale.  The scan of the
    clusters is decided at the first stale one. *)
Theorem one_download_per_stale_package (w : World) (basedir : string) (s : state) :
  exists started,
    spawned (run_loop (download_body w basedir) s) = spawned s ++ started
    /\ (forall t, In t started -> exists i, t = TDownload i)
    /\ (forall i p, pkgs s !! i = Some p ->
          ((exists c, In c AllClusters /\ map_get (NeedUpdate p) c = true) ->
             count_occ task_eq_dec started (TDownload i) = 1)
          /\ ((forall c, In c AllClusters -> map_get (NeedUpdate p) c = false) ->
                count_occ task_eq_dec started (TDownload i) = 0))
    /\ (forall p pre c post,
          (forall c', In c' pre -> map_get (NeedUpdate p) c' = false) ->
          map_get (NeedUpdate p) c = true ->
          any_stale (pre ++ c :: post) p = true /\ any_stale pre p = false).
Proof.
  exists (loop_tasks (download_body w basedir) 0 (pkgs s)).
  split; [rewrite run_loop_spec; reflexivity |].
  split; [apply download_tasks_kind |].
  split; [| intros p pre c post; apply any_stale_first].
  intros i p Hi. rewrite download_count, Nat.sub_0_r, Hi.
  destruct (decide (0 <= i)) as [_ | Hbad]; [| lia].
  split.
  - intros Hex. apply any_stale_spec in Hex. now rewrite Hex.
  - intros Hall. destruct (any_stale AllClusters p) eqn:Hs; [| reflexivity].
    apply any_stale_spec in Hs as (c & Hin & Hc).
    rewrite (Hall c Hin) in Hc. discriminate.
Qed.

Example download_once_for_two_stale_clusters :
  let p := mkPackage "http://ci/app.tgz" "" "app" Sample.rev_new
                     {[ "atla" := true; "smf1" := true ]} ∅ true in
  loop_tasks (download_body Sample.world "/tmp/d") 0 [p; Sample.manifest_app; p]
  = [TDownload 0; TDownload 2].
Proof. vm_compute. reflexivity. Qed.

(** ** Futures that deliver, and the one that may not *)

Lemma decodeJsonFile_sends_once (w : World) (jsonFile : string) :
  length (sends (decodeJsonFile w jsonFile)) = 1.
Proof. reflexivity. Qed.

Lemma CheckIfValidPackage_sends_once (w : World) (p : Package) :
  length (sends (CheckIfValidPackage w p)) = 1.
Proof. reflexivity. Qed.

Lemma IsUpdateNeeded_sends_once (w : World) (p : Package) :
  length (sends (IsUpdateNeeded w p)) = 1.
Proof. reflexivity. Qed.

Lemma UpdatePackage_sends_once (w : World) (cluster : string) (p : Package) :
  current_user w <> None ->
  length (sends (UpdatePackage_run w cluster p)) = 1.
Proof.
  intros Hu. unfold UpdatePackage_run.
  destruct (current_user w); [| congruence].
  destruct (package_add_version _ _ _ _ _ _); reflexivity.
Qed.

(** The download goroutine sends on its success path only. *)
Lemma DownloadArtifact_sends (w : World) (basedir : string) (p : Package) :
  let outpath := path_Join w basedir (Project p) in
  let outname := path_Join w outpath (Str.Base (Artifact p)) in
  sends (DownloadArtifact w basedir p)
  = if mkdir_fails w outpath then []
    else if create_fails w outname then []
    else match fetch w (Artifact p) with
         | Some true => [set_File outname p]
         | _ => []
         end.
Proof.
  unfold DownloadArtifact. cbv zeta.
  destruct (mkdir_fails w _); [reflexivity |].
  destruct (create_fails w _); [reflexivity |].
  destruct (fetch w (Artifact p)) as [[|] |]; reflexivity.
Qed.

(** C1. The download goroutine of a package whose fetch fails sends
    nothing on its future: the pool then holds one outstanding future
    and an empty channel, and the drain "Downloading packages" never
    returns. *)
Theorem download_error_sends_nothing :
  let p := mkPackage "http://ci/app.tgz" "" "app" Sample.rev_new
                     {[ "atla" := true; "smf1" := true ]} ∅ true in
  fetch Sample.world_fetch_fails (Artifact p) = None
  /\ sends (DownloadArtifact Sample.world_fetch_fails "/home/ci/downloads_tmp" p) = []
  /\ snd (main Sample.world_fetch_fails (Sample.process []) "*" "/cfg") = Hung
  /\ spawned (fst (main Sample.world_fetch_fails (Sample.process []) "*" "/cfg"))
     = [TValidate 0; TAssess 0; TDownload 0]
  /\ futures (fst (main Sample.world_fetch_fails (Sample.process []) "*" "/cfg"))
     = mkFutures [] 1.
Proof. vm_compute. repeat split. Qed.

(** ** The [Updated] map *)

(** The entry written by an upload goroutine tells whether the tool
    succeeded. *)
Lemma UpdatePackage_run_entry (w : World) (cluster username : string) (p : Package) :
  current_user w = Some username ->
  Updated (record_after (UpdatePackage_run w cluster p)) !! cluster
  = Some (match package_add_version w cluster (Revision p) username (Project p) (File p)
          with
          | CmdDone _ => true
          | CmdFail _ => false
          end).
Proof.
  intros Hu. unfold UpdatePackage_run. rewrite Hu.
  destruct (package_add_version _ _ _ _ _ _); cbn [record_after Updated set_Updated];
    apply lookup_insert_eq.
Qed.

(** C2. One package, both clusters stale, both uploads succeed.  When
    the first upload goroutine ends before [main] makes its second call
    of [UpdatePackage], that call makes a new map: after the stage the
    entry of the first cluster is missing and the report says it was not
    updated. *)
Theorem updated_entry_lost :
  let r := main Sample.world (Sample.process [Main; Task 0]) "*" "/cfg" in
  snd r = Finished
  /\ map (fun p => stale_clusters AllClusters p) (pkgs (fst r)) = [["atla"; "smf1"]]
  /\ package_add_version Sample.world "atla" Sample.rev_new "deploy" "app"
       "/home/ci/downloads_tmp/app/app.tgz" = CmdDone "added"
  /\ Sample.updated_entries (fst r) = [("app", true, None, Some true)]
  /\ final_report (fst r) = [("app", "atla", false); ("app", "smf1", true)].
Proof. vm_compute. repeat split. Qed.

(** With both calls made before either goroutine ends, both entries are
    there. *)
Example updated_entries_kept :
  let r := main Sample.world (Sample.process [Main; Main; Task 1; Task 0]) "*" "/cfg" in
  snd r = Finished
  /\ Sample.updated_entries (fst r) = [("app", true, Some true, Some true)]
  /\ final_report (fst r) = [("app", "atla", true); ("app", "smf1", true)].
Proof. vm_compute. repeat split. Qed.

(** ** Writers of one record *)

(** In the first three stages a loop starts at most one goroutine per
    record. *)
Lemma loop_targets_NoDup (body : nat -> Package -> option (task * task_end))
    (ps : list Package) :
  (forall i p t e, body i p = Some (t, e) -> target t = i) ->
  forall i0, NoDup (map target (loop_tasks body i0 ps))
             /\ Forall (fun i => i0 <= i) (map target (loop_tasks body i0 ps)).
Proof.
  intros Hb. induction ps as [| p rest IH]; intros i0.
  - simpl. split; constructor.
  - cbn [loop_tasks]. destruct (IH (S i0)) as [Hnd Hge].
    assert (Forall (fun i => i0 <= i) (map target (loop_tasks body (S i0) rest))) as Hge'.
    { eapply Forall_impl; [exact Hge |]. simpl. intros; lia. }
    destruct (body i0 p) as [[t e] |] eqn:Hp; [| now split].
    cbn [map]. rewrite (Hb _ _ _ _ Hp). split.
    + apply NoDup_cons. split; [| exact Hnd].
      intros Hin. rewrite Forall_forall in Hge. specialize (Hge _ Hin). lia.
    + constructor; [lia | exact Hge'].
Qed.

Lemma stage_writers_distinct (w : World) (basedir : string) (ps : list Package) :
  NoDup (map target (loop_tasks (validate_body w) 0 ps))
  /\ NoDup (map target (loop_tasks (assess_body w) 0 ps))
  /\ NoDup (map target (loop_tasks (download_body w basedir) 0 ps)).
Proof.
  repeat split; apply loop_targets_NoDup.
  - intros i p t e H. inversion H. reflexivity.
  - intros i p t e. unfold assess_body. destruct (Valid p); intros H; inversion H.
    reflexivity.
  - intros i p t e. unfold download_body.
    destruct (any_stale AllClusters p); intros H; inversion H. reflexivity.
Qed.

(** C9. One package with both clusters stale: after the two calls of
    [main] two upload goroutines are running on the same record, and
    whichever ends first writes the [Updated] map of that record. *)
Theorem upload_goroutines_share_record :
  let u := upload_steps Sample.world [Main; Main] (upload_start Sample.at_upload) in
  u_running u = [(0, "atla"); (0, "smf1")]
  /\ ~ NoDup (map fst (u_running u))
  /\ Sample.updated_entries (u_main u) = [("app", true, None, None)]
  /\ Sample.updated_entries (u_main (upload_step Sample.world (Task 0) u))
     = [("app", true, Some true, None)]
  /\ Sample.updated_entries (u_main (upload_step Sample.world (Task 1) u))
     = [("app", true, None, Some true)]
  /\ fst (main Sample.world (Sample.process [Main; Main]) "*" "/cfg")
     = mkState (pkgs (u_main (upload_settle Sample.world u)))
               (mkFutures [] 0)
               (spawned (u_main (upload_settle Sample.world u)))
               (drains Sample.at_upload ++ ["Updating packages"]).
Proof.
  cbv zeta. split; [vm_compute; reflexivity |].
  split.
  { replace (upload_steps Sample.world [Main; Main] (upload_start Sample.at_upload))
      with (mkUpload (upload_spawn 0 "smf1" (upload_spawn 0 "atla" Sample.at_upload))
                     [] [(0, "atla"); (0, "smf1")] false)
      by (vm_compute; reflexivity).
    cbn [u_running map fst]. intros Hnd.
    apply NoDup_cons in Hnd as [Hnotin _]. apply Hnotin. now left. }
  vm_compute. repeat split.
Qed.

(** ** Invalid packages *)

Lemma invalid_never_assessed (w : World) (ps : list Package) (i : nat) (p : Package) :
  ps !! i = Some p -> Valid p = false ->
  ~ In (TAssess i) (loop_tasks (assess_body w) 0 ps).
Proof.
  intros Hi Hv Hin. apply loop_tasks_elem in Hin as (j & q & e & Hj & Hb).
  unfold assess_body in Hb. destruct (Valid q) eqn:Hq; [| discriminate].
  inversion Hb; subst. simpl in Hi. rewrite Hi in Hj. inversion Hj; subst. congruence.
Qed.

(** A record without a set flag for any cluster, valid or not, gets no
    download and no upload. *)
Lemma unflagged_record_left_alone (w : World) (basedir : string)
    (ps : list Package) (i : nat) (p : Package) :
  ps !! i = Some p ->
  (forall c, In c AllClusters -> map_get (NeedUpdate p) c = false) ->
  ~ In (TDownload i) (loop_tasks (download_body w basedir) 0 ps)
  /\ forall c, ~ In (i, c) (upload_plan 0 ps).
Proof.
  intros Hi Hnone. split.
  - intros Hin. apply loop_tasks_elem in Hin as (j & q & e & Hj & Hb).
    unfold download_body in Hb. destruct (any_stale AllClusters q) eqn:Hs; [| discriminate].
    injection Hb as Hji _. simpl in Hji. subst j.
    assert (q = p) as -> by congruence.
    apply any_stale_spec in Hs as (c & Hc & Hflag).
    rewrite (Hnone c Hc) in Hflag. discriminate.
  - intros c Hin. apply upload_plan_elem in Hin as (j & q & Hji & Hj & Hc).
    simpl in Hji. subst j. assert (q = p) as -> by congruence.
    apply stale_clusters_spec in Hc as [Hc Hflag]. cbn [snd] in Hc, Hflag.
    rewrite (Hnone c Hc) in Hflag. discriminate.
Qed.

(** C5. Two manifests; the second declares [NeedUpdate] itself and is
    not valid.  It is not assessed, so the map it declared is still
    there in the download stage: a download and an upload goroutine are
    started for it. *)
Theorem invalid_package_downloaded :
  let r := main Sample.world_two Sample.process_two "*" "/cfg" in
  map (fun p => (Project p, Valid p)) (pkgs (fst r)) = [("app", true); ("doc", false)]
  /\ spawned (fst r)
     = [ TValidate 0; TValidate 1; TAssess 0; TDownload 0; TDownload 1;
         TUpload 0 "atla"; TUpload 0 "smf1"; TUpload 1 "atla" ]
  /\ In (TDownload 1) (spawned (fst r))
  /\ In (TUpload 1 "atla") (spawned (fst r)).
Proof. vm_compute. repeat split; auto 10. Qed.

(** ** Validity *)

Lemma stringInArray_In (s : string) (l : list string) :
  stringInArray s l = true <-> In s l.
Proof.
  induction l as [| v l IH]; simpl; [split; [discriminate | tauto] |].
  unfold Str.eqb. destruct (String.eqb_spec s v) as [-> | Hne].
  - split; auto.
  - rewrite IH. split; [auto | intros [Heq | Hin]; [congruence | exact Hin]].
Qed.

Lemma CheckIfValidPackage_Valid (w : World) (p : Package) :
  Valid (record_after (CheckIfValidPackage w p)) = true <->
  exists ct, probe w (Artifact p) = Some ct /\ In ct acceptableMIMETypes.
Proof.
  unfold CheckIfValidPackage. cbn [set_Valid Artifact record_after].
  destruct (probe w (Artifact p)) as [ct |].
  - destruct (stringInArray ct acceptableMIMETypes) eqn:Hin; cbn [Valid set_Valid].
    + split; [intros _ | reflexivity]. exists ct. split; [reflexivity |].
      now apply stringInArray_In.
    + split; [discriminate |]. intros (ct' & Heq & Hin').
      inversion Heq; subst ct'. apply stringInArray_In in Hin'. congruence.
  - cbn [Valid]. split; [discriminate | intros (ct & Heq & _); discriminate].
Qed.

(** The value left in [Valid] is the last one assigned. *)
Lemma Valid_writes_last (w : World) (p : Package) :
  (Valid_writes w p = [false] \/ Valid_writes w p = [false; true])
  /\ last (Valid_writes w p) = Some (Valid (record_after (CheckIfValidPackage w p))).
Proof.
  unfold Valid_writes, CheckIfValidPackage. cbn [set_Valid Artifact record_after].
  destruct (probe w (Artifact p)) as [ct |]; [| auto].
  destruct (stringInArray ct acceptableMIMETypes); auto.
Qed.

Lemma validate_tasks (w : World) (ps : list Package) :
  forall i0, loop_tasks (validate_body w) i0 ps = map TValidate (seq i0 (length ps)).
Proof.
  induction ps as [| p rest IH]; intros i0; simpl; [reflexivity |].
  now rewrite IH.
Qed.

Lemma validate_records (w : World) (ps : list Package) :
  forall i0, loop_records (validate_body w) i0 ps
             = map (fun p => record_after (CheckIfValidPackage w p)) ps.
Proof.
  induction ps as [| p rest IH]; intros i0; simpl; [reflexivity |].
  now rewrite IH.
Qed.

Lemma loop_records_Valid (body : nat -> Package -> option (task * task_end))
    (ps : list Package) :
  (forall i p t e, body i p = Some (t, e) -> Valid (record_after e) = Valid p) ->
  forall i0, map Valid (loop_records body i0 ps) = map Valid ps.
Proof.
  intros Hb. induction ps as [| p rest IH]; intros i0; simpl; [reflexivity |].
  destruct (body i0 p) as [[t e] |] eqn:Hp; simpl; rewrite IH; [| reflexivity].
  now rewrite (Hb _ _ _ _ Hp).
Qed.

Lemma assess_clusters_Valid (w : World) (clusters : list string) :
  forall p, Valid (assess_clusters w clusters p) = Valid p.
Proof.
  induction clusters as [| c rest IH]; intros p; simpl; [reflexivity |].
  now rewrite IH.
Qed.

Lemma assess_body_Valid (w : World) i p t e :
  assess_body w i p = Some (t, e) -> Valid (record_after e) = Valid p.
Proof.
  unfold assess_body, IsUpdateNeeded.
  destruct (Valid p) eqn:Hv; intros H; [| discriminate].
  injection H as <- <-. exact Hv.
Qed.

Lemma download_body_Valid (w : World) basedir i p t e :
  download_body w basedir i p = Some (t, e) -> Valid (record_after e) = Valid p.
Proof.
  unfold download_body, DownloadArtifact.
  destruct (any_stale AllClusters p); intros H; inversion H.
  destruct (mkdir_fails w _); [reflexivity |].
  destruct (create_fails w _); [reflexivity |].
  destruct (fetch w (Artifact p)) as [[|] |]; reflexivity.
Qed.

Lemma map_Valid_erase (ps qs : list Package) :
  map erase_Updated ps = map erase_Updated qs -> map Valid ps = map Valid qs.
Proof.
  intros H. apply (f_equal (map Valid)) in H. rewrite !map_map in H. exact H.
Qed.

Section MainRecords.

Variable w : World.
Variable pr : Process.
Variables project rootPath : string.
Variable matched : list string.

Hypothesis glob_matched :
  glob pr (path_Join w rootPath (project +:+ ".json")) = matched.
Hypothesis few_manifests : (2 * Z.of_nat (length matched) <= int_max)%Z.

(** No stage after the validation changes a [Valid] field. *)
Lemma main_keeps_Valid :
  map Valid (pkgs (fst (main w pr project rootPath)))
  = map Valid (validated w matched).
Proof.
  set (basedir := path_Join w (pwd pr) "downloads_tmp").
  assert (map Valid (assessed w matched) = map Valid (validated w matched)) as Ha.
  { unfold assessed. apply loop_records_Valid. apply assess_body_Valid. }
  assert (map Valid (downloaded w basedir matched) = map Valid (validated w matched))
    as Hd.
  { unfold downloaded. rewrite loop_records_Valid; [exact Ha |].
    intros i p t e. apply download_body_Valid. }
  destruct (decide (matched = [])) as [Hnil | Hne].
  { rewrite (main_no_manifest w pr project rootPath matched glob_matched
               few_manifests Hnil).
    pose proof (validated_length w matched) as Hl. rewrite Hnil in Hl.
    rewrite Hnil. simpl in Hl. apply length_zero_iff_nil in Hl. now rewrite Hl. }
  rewrite (main_unfold w pr project rootPath matched glob_matched few_manifests Hne).
  fold basedir.
  destruct (loop_tasks (assess_body w) 0 (validated w matched)); [exact Ha |].
  destruct (loop_tasks (download_body w basedir) 0 (assessed w matched));
    [exact Hd |].
  destruct (_ <? _)%nat; [exact Hd |].
  cbv zeta.
  match goal with |- context [upload_stage w (upload_sched pr) ?s] => set (s3 := s) end.
  assert (Z.of_nat (length (upload_plan 0 (pkgs s3))) <= int_max)%Z as Hplan.
  { pose proof (upload_plan_length (pkgs s3) 0) as Hle.
    change (length (pkgs s3)) with (length (downloaded w basedir matched)) in Hle.
    rewrite downloaded_length in Hle. change (length AllClusters) with 2 in Hle. lia. }
  destruct (upload_stage_inv w s3 eq_refl Hplan (upload_sched pr))
    as (a & _ & _ & _ & _ & Her & _).
  apply map_Valid_erase in Her.
  destruct (u_panicked _); cbn [fst pkgs]; rewrite Her; exact Hd.
Qed.

(** The first gate fires exactly when nothing was matched. *)
Lemma main_no_packages_iff :
  snd (main w pr project rootPath) = FatalNoPackages <-> matched = [].
Proof.
  split.
  - intros Hout. destruct (decide (matched = [])) as [Hnil | Hne]; [exact Hnil |].
    exfalso. revert Hout.
    rewrite (main_unfold w pr project rootPath matched glob_matched few_manifests Hne).
    destruct (loop_tasks (assess_body w) 0 (validated w matched)); [discriminate |].
    destruct (loop_tasks (download_body w _) 0 (assessed w matched)); [discriminate |].
    destruct (_ <? _)%nat; [discriminate |].
    cbv zeta. destruct (u_panicked _); discriminate.
  - intros Hnil.
    now rewrite (main_no_manifest w pr project rootPath matched glob_matched
                   few_manifests Hnil).
Qed.

End MainRecords.

(** C8. Validity: the validation goroutine leaves [Valid] true exactly
    when the probe succeeds with a content type of the whitelist, false
    otherwise; it assigns the field once ([false]) or twice ([false],
    then [true]) and the value left is the last one assigned; the
    validation loop starts exactly one such goroutine per record; and in
    a run on fewer than [2^62] manifests no later stage changes the
    field. *)
Theorem validity_set_by_validation_only (w : World) (pr : Process)
    (project rootPath : string) :
  (2 * Z.of_nat (length (glob pr (path_Join w rootPath (project +:+ ".json"))))
   <= int_max)%Z ->
  (forall p,
     Valid (record_after (CheckIfValidPackage w p)) = true <->
     exists ct, probe w (Artifact p) = Some ct
                /\ (ct = "application/x-compressed" \/ ct = "application/x-gzip"
                    \/ ct = "application/zip"))
  /\ (forall p,
        (Valid_writes w p = [false] \/ Valid_writes w p = [false; true])
        /\ last (Valid_writes w p)
           = Some (Valid (record_after (CheckIfValidPackage w p))))
  /\ (forall ps, loop_tasks (validate_body w) 0 ps = map TValidate (seq 0 (length ps)))
  /\ map Valid (pkgs (fst (main w pr project rootPath)))
     = map (fun p => Valid (record_after (CheckIfValidPackage w p)))
           (decoded w (glob pr (path_Join w rootPath (project +:+ ".json")))).
Proof.
  intros Hfew. split; [| split; [| split]].
  - intros p. rewrite CheckIfValidPackage_Valid. split.
    + intros (ct & Hp & Hin). exists ct. split; [exact Hp |].
      simpl in Hin. destruct Hin as [<- | [<- | [<- | []]]]; auto.
    + intros (ct & Hp & Hin). exists ct. split; [exact Hp |].
      simpl. destruct Hin as [-> | [-> | ->]]; auto.
  - apply Valid_writes_last.
  - intros ps. apply validate_tasks.
  - rewrite (main_keeps_Valid w pr project rootPath _ eq_refl Hfew).
    unfold validated. rewrite validate_records, map_map. reflexivity.
Qed.

Lemma validity_set_by_validation_only_witness :
  map Valid (pkgs (fst (main Sample.world_two Sample.process_two "*" "/cfg")))
  = [true; false].
Proof.
  assert (2 * Z.of_nat (length (glob Sample.process_two
                                  (path_Join Sample.world_two "/cfg" ("*" +:+ ".json"))))
          <= int_max)%Z as Hfew by (vm_compute; discriminate).
  destruct (validity_set_by_validation_only Sample.world_two Sample.process_two
              "*" "/cfg" Hfew) as (_ & _ & _ & Hkeep).
  rewrite Hkeep. vm_compute. reflexivity.
Defined.

(** The valid path of [CheckIfValidPackage] assigns [Valid] twice. *)
Lemma validity_assigned_twice :
  Valid_writes Sample.world Sample.manifest_app = [false; true]
  /\ length (Valid_writes Sample.world Sample.manifest_app) <> 1.
Proof. vm_compute. split; [reflexivity | discriminate]. Qed.

(** ** Manifests *)

(** C10. Every matched path yields exactly one record, whatever
    happens to the file: its project name is the base name of the path
    up to the first [.json]; when the file cannot be opened the other
    fields are empty, and otherwise they are what the decoder stored,
    error or not (nothing when the text is not JSON).  In a run on fewer
    than [2^62] manifests [GetAllPackages] returns these records, one
    per path, in the order of arrival, and the gate "No packages found"
    fires exactly when the pattern matched nothing. *)
Theorem manifest_always_yields_record (w : World) (pr : Process)
    (project rootPath : string) :
  (2 * Z.of_nat (length (glob pr (path_Join w rootPath (project +:+ ".json"))))
   <= int_max)%Z ->
  (forall v,
     exists p, sends (decodeJsonFile w v) = [p]
               /\ Project p = Str.before_first ".json" (Str.Base v)
               /\ match read_manifest w v with
                  | OpenFails =>
                      p = set_Project (Str.before_first ".json" (Str.Base v)) zeroPackage
                      /\ Artifact p = "" /\ Revision p = ""
                  | Decoded filled _ =>
                      p = set_Project (Str.before_first ".json" (Str.Base v)) filled
                      /\ (filled = zeroPackage -> Artifact p = "" /\ Revision p = "")
                  end)
  /\ (exists ps,
        GetAllPackages w (glob pr (path_Join w rootPath (project +:+ ".json"))) newFutures
        = Some (ps, mkFutures [] 0)
        /\ Permutation ps
             (map (fun v => record_after (decodeJsonFile w v))
                  (glob pr (path_Join w rootPath (project +:+ ".json"))))
        /\ length ps = length (glob pr (path_Join w rootPath (project +:+ ".json"))))
  /\ (snd (main w pr project rootPath) = FatalNoPackages
      <-> glob pr (path_Join w rootPath (project +:+ ".json")) = []).
Proof.
  intros Hfew. split; [| split].
  - intros v. unfold decodeJsonFile. eexists. split; [reflexivity |].
    split; [reflexivity |].
    destruct (read_manifest w v) as [| filled err].
    + repeat split.
    + split; [reflexivity |]. intros ->. split; reflexivity.
  - exists (decoded w (glob pr (path_Join w rootPath (project +:+ ".json")))).
    split; [apply GetAllPackages_spec; lia |].
    split; [apply arrange_Permutation | apply decoded_length].
  - apply (main_no_packages_iff w pr project rootPath _ eq_refl Hfew).
Qed.

Lemma manifest_always_yields_record_witness :
  snd (main Sample.world_badrev (Sample.process []) "*" "/cfg") <> FatalNoPackages.
Proof.
  assert (2 * Z.of_nat (length (glob (Sample.process [])
                                  (path_Join Sample.world_badrev "/cfg" ("*" +:+ ".json"))))
          <= int_max)%Z as Hfew by (vm_compute; discriminate).
  destruct (manifest_always_yields_record Sample.world_badrev (Sample.process [])
              "*" "/cfg" Hfew) as (_ & _ & Hgate).
  intros Hout. apply Hgate in Hout. discriminate.
Defined.

(** A manifest whose decoding fails on one field keeps the others. *)
Lemma failed_decode_keeps_artifact :
  read_manifest Sample.world_badrev "/cfg/app.json" = Decoded Sample.manifest_badrev true
  /\ sends (decodeJsonFile Sample.world_badrev "/cfg/app.json")
     = [mkPackage "http://h/a.tgz" "" "app" "" ∅ ∅ false]
  /\ Artifact (record_after (decodeJsonFile Sample.world_badrev "/cfg/app.json")) <> "".
Proof. vm_compute. repeat split. discriminate. Qed.

Example project_name_from_path :
  Project (record_after (decodeJsonFile Sample.world "/cfg/deploy/app.json")) = "app"
  /\ Str.before_first ".json" (Str.Base "/cfg/a.json.b.json") = "a".
Proof. vm_compute. split; reflexivity. Qed.

(** * Further properties of the code *)

(** ** [stringInArray] *)

(** X1. [stringInArray] is membership: it answers true exactly for the
    strings of the list, so false on the empty list, and a string found
    in a list is found in every list that extends it on either side. *)
Theorem stringInArray_membership (s : string) (l : list string) :
  (stringInArray s l = true <-> In s l)
  /\ (stringInArray s l = false <-> ~ In s l)
  /\ (forall pre post, stringInArray s l = true ->
        stringInArray s (pre ++ l ++ post) = true).
Proof.
  assert (forall l', stringInArray s l' = true <-> In s l') as Hmem.
  { induction l' as [| v l' IH]; simpl; [split; [discriminate | tauto] |].
    unfold Str.eqb. destruct (String.eqb_spec s v) as [-> | Hne].
    - split; auto.
    - rewrite IH. split; [auto | intros [Heq | Hin]; [congruence | exact Hin]]. }
  split; [apply Hmem |]. split.
  - rewrite <- Hmem. destruct (stringInArray s l); split; congruence.
  - intros pre post Hin. apply Hmem. apply Hmem in Hin.
    apply in_or_app. right. apply in_or_app. now left.
Qed.

(** ** The pool *)

(** X9. A drain that has returned leaves nothing outstanding: draining
    again returns at once with the same pool, whatever is still waiting
    on the channel. *)
Theorem drain_twice (f f' : Futures) :
  BlockUntilComplete f = Some f' ->
  BlockUntilComplete f' = Some f' /\ (ItemsInChannels f' <= 0)%Z.
Proof.
  unfold BlockUntilComplete. destruct f as [ch n]. cbn [Channels ItemsInChannels].
  assert (forall ch n got g, recv_loop n ch = Some (got, g) ->
            (ItemsInChannels g <= 0)%Z) as Hle.
  { clear. induction ch as [| v ch IH]; intros n got g H; simpl in H;
      destruct (Z.ltb_spec 0 n) as [Hpos | Hnon]; try discriminate.
    - inversion H; subst. simpl. lia.
    - destruct (recv_loop (n - 1) ch) as [[got' g'] |] eqn:Hr; [| discriminate].
      inversion H; subst. eapply IH, Hr.
    - inversion H; subst. simpl. lia. }
  destruct (recv_loop n ch) as [[got g] |] eqn:Hr; [| discriminate].
  intros H. inversion H; subst f'. pose proof (Hle _ _ _ _ Hr) as Hg.
  split; [| exact Hg].
  destruct g as [ch' n']. cbn [Channels ItemsInChannels] in *.
  now rewrite recv_loop_idle.
Qed.

Lemma drain_twice_witness :
  BlockUntilComplete (mkFutures [zeroPackage] 0) = Some (mkFutures [zeroPackage] 0).
Proof.
  assert (BlockUntilComplete (mkFutures [zeroPackage; zeroPackage] 1)
          = Some (mkFutures [zeroPackage] 0)) as H by reflexivity.
  exact (proj1 (drain_twice _ _ H)).
Defined.

(** ** Revision tokens *)

Lemma scan_no_overlap (s : string) :
  forall skip, 40 * length (Sha.scan skip s) <= String.length s - skip.
Proof.
  induction s as [| a s IH]; intros skip; [simpl; lia |].
  cbn [Sha.scan String.length]. destruct skip as [| k].
  - destruct (Sha.take_hex 40 (String a s)) as [t |] eqn:Ht.
    + destruct (take_hex_shape _ _ _ Ht) as (Hlen & _ & rest & Hrest).
      assert (40 <= String.length (String a s)) as Hlong.
      { rewrite Hrest, string_length_append. lia. }
      cbn [String.length] in Hlong. cbn [length].
      specialize (IH 39). lia.
    + specialize (IH 0). lia.
  - specialize (IH k). lia.
Qed.

(** X10. The scan for revision tokens finds nothing exactly when the
    text has no run of forty characters of [0-9a-f] anywhere, and the
    tokens it finds do not overlap: forty characters of the text for
    each. *)
Theorem tokens_found_iff_present (s : string) :
  (Sha.FindAllString s = [] <-> ~ has_token s)
  /\ 40 * length (Sha.FindAllString s) <= String.length s.
Proof.
  split.
  - rewrite FindAllString_none. split.
    + intros Hnone (pre & t & post & Hs & Hlen & Hall).
      specialize (Hnone pre (t +:+ post) Hs).
      rewrite <- Hlen, take_hex_complete in Hnone by exact Hall. discriminate.
    + intros Hno pre post Hs.
      destruct (Sha.take_hex 40 post) as [t |] eqn:Ht; [| reflexivity].
      destruct (take_hex_shape _ _ _ Ht) as (Hlen & Hall & rest & Hrest).
      exfalso. apply Hno. exists pre, t, rest. subst post. auto.
  - pose proof (scan_no_overlap s 0) as H. unfold Sha.FindAllString. lia.
Qed.

Example tokens_of_a_long_run :
  Sha.FindAllString (Sample.rev_new +:+ Sample.rev_new +:+ "0123") 
  = [Sample.rev_new; Sample.rev_new]
  /\ Sha.FindAllString "0123456789ABCDEF0123456789ABCDEF01234567" = [].
Proof. vm_compute. split; reflexivity. Qed.

Lemma last_In {A} (l : list A) (x : A) : last l = Some x -> In x l.
Proof.
  induction l as [| a l IH]; [discriminate |].
  destruct l as [| b l]; simpl in *.
  - intros H. inversion H. now left.
  - intros H. right. apply IH. exact H.
Qed.

(** X11. A package whose declared revision is not made of exactly forty
    characters of [0-9a-f] (empty, shortened, upper case) is never found
    up to date: whatever the query tool answers, each cluster needs the
    update. *)
Theorem malformed_revision_always_stale (w : World) (p : Package) (cluster : string) :
  String.length (Revision p) <> 40
  \/ ~ Forall (fun a => Sha.hex a = true) (list_ascii_of_string (Revision p)) ->
  fst (clusterOkToUpdate w p cluster) = true.
Proof.
  intros Hbad. unfold clusterOkToUpdate.
  destruct (package_versions w cluster (Project p)) as [err | out]; [reflexivity |].
  destruct (last (Sha.FindAllString out)) as [latest |] eqn:Hlast; [| reflexivity].
  unfold Str.eqb. destruct (String.eqb_spec (Revision p) latest) as [Heq | Hne];
    [| reflexivity].
  exfalso. apply last_In in Hlast.
  destruct (scan_tokens _ _ _ Hlast) as [Hlen Hall]. rewrite <- Heq in Hlen, Hall.
  destruct Hbad as [Hl | Hh]; [exact (Hl Hlen) | exact (Hh Hall)].
Qed.

Lemma malformed_revision_always_stale_witness :
  fst (clusterOkToUpdate Sample.world_current
         (mkPackage "http://ci/app.tgz" "" "app" "0123456789abcdef" ∅ ∅ true) "atla")
  = true.
Proof.
  apply malformed_revision_always_stale. left. cbn [Revision].
  vm_compute. discriminate.
Defined.

(** ** The assessment goroutine *)

Lemma clusterOkToUpdate_NeedUpdate (w : World) (m : gmap string bool) (p : Package)
    (cluster : string) :
  clusterOkToUpdate w (set_NeedUpdate m p) cluster = clusterOkToUpdate w p cluster.
Proof. reflexivity. Qed.

Lemma assess_clusters_erase (w : World) (clusters : list string) :
  forall p, erase_NeedUpdate (assess_clusters w clusters p) = erase_NeedUpdate p.
Proof.
  induction clusters as [| c rest IH]; intros p; [reflexivity |].
  cbn [assess_clusters]. now rewrite IH.
Qed.

Lemma assess_clusters_lookup (w : World) (clusters : list string) :
  forall p c,
    NeedUpdate (assess_clusters w clusters p) !! c
    = if decide (c ∈ clusters)
      then Some (fst (clusterOkToUpdate w p c))
      else NeedUpdate p !! c.
Proof.
  induction clusters as [| c0 rest IH]; intros p c.
  - simpl. destruct (decide (c ∈ [])) as [Hin | _]; [| reflexivity].
    now apply not_elem_of_nil in Hin.
  - cbn [assess_clusters]. rewrite IH, clusterOkToUpdate_NeedUpdate.
    cbn [NeedUpdate set_NeedUpdate].
    destruct (decide (c ∈ rest)) as [Hin | Hnin].
    + destruct (decide (c ∈ c0 :: rest)) as [_ | Hbad]; [reflexivity |].
      exfalso. apply Hbad. now right.
    + destruct (decide (c0 = c)) as [-> | Hne].
      * rewrite lookup_insert_eq.
        destruct (decide (c ∈ c :: rest)) as [_ | Hbad]; [reflexivity |].
        exfalso. apply Hbad. now left.
      * rewrite lookup_insert_ne by exact Hne.
        destruct (decide (c ∈ c0 :: rest)) as [Hin | _]; [| reflexivity].
        apply elem_of_cons in Hin as [Heq | Hin]; [congruence | tauto].
Qed.

(** X2. The assessment goroutine leaves in [NeedUpdate] exactly one
    entry per cluster of the fixed list, holding the decision taken for
    that cluster on the record's project and revision; no other key is
    left, so whatever the map held before (from the manifest, say) is
    gone; no other field changes, and the record sent is that record. *)
Theorem assessment_fills_every_cluster (w : World) (p : Package) :
  let q := record_after (IsUpdateNeeded w p) in
  sends (IsUpdateNeeded w p) = [q]
  /\ (forall c, In c AllClusters ->
        NeedUpdate q !! c = Some (fst (clusterOkToUpdate w p c)))
  /\ (forall c, ~ In c AllClusters -> NeedUpdate q !! c = None)
  /\ dom (NeedUpdate q) = list_to_set AllClusters
  /\ erase_NeedUpdate q = erase_NeedUpdate p.
Proof.
  cbv zeta. unfold IsUpdateNeeded. cbn [record_after sends].
  assert (forall c,
            NeedUpdate (assess_clusters w AllClusters (set_NeedUpdate ∅ p)) !! c
            = if decide (c ∈ AllClusters)
              then Some (fst (clusterOkToUpdate w p c)) else None) as Hlook.
  { intros c. rewrite assess_clusters_lookup, clusterOkToUpdate_NeedUpdate.
    destruct (decide (c ∈ AllClusters)); [reflexivity |].
    cbn [NeedUpdate set_NeedUpdate]. apply lookup_empty. }
  split; [reflexivity |]. split; [| split; [| split]].
  - intros c Hin. apply list_elem_of_In in Hin. rewrite Hlook.
    destruct (decide (c ∈ AllClusters)); tauto.
  - intros c Hnin. rewrite <- list_elem_of_In in Hnin. rewrite Hlook.
    destruct (decide (c ∈ AllClusters)); tauto.
  - apply set_eq. intros c. rewrite elem_of_dom, Hlook, elem_of_list_to_set.
    destruct (decide (c ∈ AllClusters)) as [Hin | Hnin].
    + split; [intros _; exact Hin | intros _; eexists; reflexivity].
    + split; [intros [x Hx]; discriminate | tauto].
  - rewrite assess_clusters_erase. reflexivity.
Qed.

Example assessment_overrides_manifest_flags :
  let q := record_after (IsUpdateNeeded Sample.world_current
                           (mkPackage "http://ci/app.tgz" "" "app" Sample.rev_new
                                      {[ "atla" := true; "dc9" := true ]} ∅ true)) in
  (NeedUpdate q !! "atla", NeedUpdate q !! "smf1", NeedUpdate q !! "dc9")
  = (Some false, Some false, None).
Proof. vm_compute. reflexivity. Qed.

(** ** The download goroutine *)

(** X3. A download goroutine either delivers or leaves its record
    exactly as it was.  It delivers only when the directory and the file
    could be created, the fetch succeeded and the copy went through; the
    record it sends is the record it leaves, changed in [File] alone,
    which is then the artifact's base name under the project's directory
    of [basedir]. *)
Theorem download_all_or_nothing (w : World) (basedir : string) (p : Package) :
  let outpath := path_Join w basedir (Project p) in
  let outname := path_Join w outpath (Str.Base (Artifact p)) in
  let e := DownloadArtifact w basedir p in
  (sends e = [] /\ record_after e = p
   /\ (mkdir_fails w outpath = true \/ create_fails w outname = true
       \/ fetch w (Artifact p) = None \/ fetch w (Artifact p) = Some false))
  \/ (sends e = [record_after e] /\ record_after e = set_File outname p
      /\ mkdir_fails w outpath = false /\ create_fails w outname = false
      /\ fetch w (Artifact p) = Some true).
Proof.
  cbv zeta. unfold DownloadArtifact.
  destruct (mkdir_fails w _) eqn:Hm; [left; auto |].
  destruct (create_fails w _) eqn:Hc; [left; auto |].
  destruct (fetch w (Artifact p)) as [[|] |] eqn:Hf.
  - right. repeat split.
  - left. auto 10.
  - left. auto 10.
Qed.

(** ** The upload stage *)

Lemma upload_step_erase (w : World) (c : choice) (u : upload_state) :
  map erase_Updated (pkgs (u_main (upload_step w c u)))
  = map erase_Updated (pkgs (u_main u))
  /\ drains (u_main (upload_step w c u)) = drains (u_main u)
  /\ length (pkgs (u_main (upload_step w c u))) = length (pkgs (u_main u)).
Proof.
  unfold upload_step. destruct (u_panicked u); [auto |].
  destruct c as [| k].
  - destruct (u_todo u) as [| [i cluster] rest]; [auto |].
    cbn [u_main upload_spawn pkgs drains].
    rewrite map_erase_alter, length_alter. auto.
  - destruct (u_running u !! k) as [[i cluster] |]; [| auto].
    unfold upload_finish. destruct (pkgs (u_main u) !! i) as [p |] eqn:Hp; [| auto].
    pose proof (UpdatePackage_run_erase w cluster p) as He.
    destruct (UpdatePackage_run w cluster p) as [q | q | q];
      cbn [u_main pkgs drains record_after] in *; auto;
      rewrite (map_erase_insert _ _ p q Hp He), length_insert; auto.
Qed.

Lemma lookup_map {A B} (f : A -> B) (l : list A) :
  forall i, map f l !! i = option_map f (l !! i).
Proof.
  induction l as [| a l IH]; intros [| i]; simpl; auto.
Qed.

(** X6. Whatever the order of its steps, the upload stage changes no
    field of any record other than [Updated]: artifact, file, project,
    revision, need-update flags and validity are as the stage found
    them, and no record is added or removed. *)
Theorem upload_stage_touches_Updated_only (w : World) (sched : list choice) (s : state) :
  map erase_Updated (pkgs (u_main (upload_stage w sched s))) = map erase_Updated (pkgs s)
  /\ length (pkgs (u_main (upload_stage w sched s))) = length (pkgs s)
  /\ forall i p q,
       pkgs s !! i = Some p -> pkgs (u_main (upload_stage w sched s)) !! i = Some q ->
       Artifact q = Artifact p /\ File q = File p /\ Project q = Project p
       /\ Revision q = Revision p /\ NeedUpdate q = NeedUpdate p /\ Valid q = Valid p.
Proof.
  assert (forall c n u,
            map erase_Updated (pkgs (u_main (Nat.iter n (upload_step w c) u)))
            = map erase_Updated (pkgs (u_main u))) as Hiter.
  { intros c n u. induction n as [| n IH]; [reflexivity |].
    rewrite Nat.iter_succ, (proj1 (upload_step_erase w c _)). exact IH. }
  assert (forall cs u,
            map erase_Updated (pkgs (u_main (upload_steps w cs u)))
            = map erase_Updated (pkgs (u_main u))) as Hsteps.
  { unfold upload_steps. induction cs as [| c cs IH]; intros u; [reflexivity |].
    cbn [fold_left]. rewrite IH. apply upload_step_erase. }
  assert (map erase_Updated (pkgs (u_main (upload_stage w sched s)))
          = map erase_Updated (pkgs s)) as Hall.
  { unfold upload_stage, upload_settle. rewrite !Hiter, Hsteps. reflexivity. }
  split; [exact Hall |]. split.
  - rewrite <- (length_map erase_Updated), Hall. apply length_map.
  - intros i p q Hp Hq.
    assert (erase_Updated q = erase_Updated p) as He.
    { apply (f_equal (fun l => l !! i)) in Hall.
      rewrite !lookup_map, Hp, Hq in Hall. simpl in Hall. congruence. }
    unfold erase_Updated, set_Updated in He. inversion He. auto 10.
Qed.

(** ** The final report *)

Lemma final_report_length (ps : list Package) :
  forall i0, length (flat_map report_package ps) = length (upload_plan i0 ps).
Proof.
  induction ps as [| p rest IH]; intros i0; [reflexivity |].
  cbn [flat_map upload_plan]. rewrite !length_app, (IH (S i0)).
  unfold report_package. now rewrite !length_map.
Qed.

(** X7. The final report has one line per pair of a record and a cluster
    of the fixed list whose need-update flag is set, as many lines as
    the upload loop makes calls; a line says "updated" exactly when the
    [Updated] map of the record holds [true] for the cluster, so a
    missing entry is reported as a failure. *)
Theorem final_report_lines (s : state) :
  length (final_report s) = length (upload_plan 0 (pkgs s))
  /\ (forall proj cluster ok,
        In (proj, cluster, ok) (final_report s) <->
        exists i p, pkgs s !! i = Some p
                    /\ proj = Project p
                    /\ In cluster AllClusters
                    /\ map_get (NeedUpdate p) cluster = true
                    /\ ok = map_get (Updated p) cluster)
  /\ (forall proj cluster,
        In (proj, cluster, true) (final_report s) ->
        exists i p, pkgs s !! i = Some p /\ proj = Project p
                    /\ Updated p !! cluster = Some true).
Proof.
  assert (forall proj cluster ok,
            In (proj, cluster, ok) (final_report s) <->
            exists i p, pkgs s !! i = Some p
                        /\ proj = Project p
                        /\ In cluster AllClusters
                        /\ map_get (NeedUpdate p) cluster = true
                        /\ ok = map_get (Updated p) cluster) as Hlines.
  { intros proj cluster ok. unfold final_report, report_package.
    rewrite in_flat_map. split.
    - intros (p & Hp & Hin). apply in_map_iff in Hin as (c & Heq & Hc).
      inversion Heq; subst. apply stale_clusters_spec in Hc as [Hc Hflag].
      apply list_elem_of_In, list_elem_of_lookup in Hp as [i Hi].
      exists i, p. auto.
    - intros (i & p & Hi & -> & Hc & Hflag & ->).
      exists p. split.
      + apply list_elem_of_In. eapply list_elem_of_lookup_2, Hi.
      + apply in_map_iff. exists cluster. split; [reflexivity |].
        apply stale_clusters_spec. auto. }
  split; [apply final_report_length |]. split; [exact Hlines |].
  intros proj cluster Hin. apply Hlines in Hin as (i & p & Hi & Hproj & _ & _ & Hok).
  exists i, p. split; [exact Hi |]. split; [exact Hproj |].
  unfold map_get in Hok. destruct (Updated p !! cluster) as [[|] |]; congruence.
Qed.

(** ** From download to upload *)

Lemma any_stale_stale_clusters (p : Package) (clusters : list string) :
  any_stale clusters p = true <-> stale_clusters clusters p <> [].
Proof.
  induction clusters as [| c rest IH]; simpl; [split; congruence |].
  destruct (map_get (NeedUpdate p) c); [split; congruence | exact IH].
Qed.

Lemma stale_clusters_length (p : Package) (clusters : list string) :
  length (stale_clusters clusters p) <= length clusters.
Proof.
  induction clusters as [| c rest IH]; simpl; [lia |].
  destruct (map_get (NeedUpdate p) c); simpl; lia.
Qed.

Lemma DownloadArtifact_NeedUpdate (w : World) (basedir : string) (p : Package) :
  NeedUpdate (record_after (DownloadArtifact w basedir p)) = NeedUpdate p.
Proof.
  unfold DownloadArtifact.
  destruct (mkdir_fails w _); [reflexivity |].
  destruct (create_fails w _); [reflexivity |].
  destruct (fetch w (Artifact p)) as [[|] |]; reflexivity.
Qed.

Lemma stale_clusters_ext (p q : Package) (clusters : list string) :
  NeedUpdate p = NeedUpdate q -> stale_clusters clusters p = stale_clusters clusters q.
Proof.
  intros H. induction clusters as [| c rest IH]; simpl; [reflexivity |].
  now rewrite H, IH.
Qed.

Lemma download_then_upload_count (w : World) (basedir : string) (ps : list Package) :
  forall i0,
    length (loop_tasks (download_body w basedir) i0 ps)
    <= length (upload_plan i0 (loop_records (download_body w basedir) i0 ps))
    /\ length (upload_plan i0 (loop_records (download_body w basedir) i0 ps))
       <= length AllClusters * length (loop_tasks (download_body w basedir) i0 ps).
Proof.
  induction ps as [| p rest IH]; intros i0; [simpl; lia |].
  cbn [loop_tasks loop_records].
  destruct (IH (S i0)) as [Hlo Hhi].
  destruct (any_stale AllClusters p) eqn:Hs.
  - assert (download_body w basedir i0 p
            = Some (TDownload i0, DownloadArtifact w basedir p)) as ->
      by (unfold download_body; now rewrite Hs).
    cbn [upload_plan length]. rewrite length_app, length_map.
    rewrite (stale_clusters_ext _ p) by apply DownloadArtifact_NeedUpdate.
    pose proof (stale_clusters_length p AllClusters) as Hle.
    apply any_stale_stale_clusters in Hs.
    destruct (stale_clusters AllClusters p) as [| c cs] eqn:Hc; [congruence |].
    change (length AllClusters) with 2 in *. cbn [length] in *. lia.
  - assert (download_body w basedir i0 p = None) as ->
      by (unfold download_body; now rewrite Hs).
    cbn [upload_plan]. rewrite length_app, length_map.
    assert (stale_clusters AllClusters p = []) as ->.
    { destruct (stale_clusters AllClusters p) eqn:Hc; [reflexivity |].
      assert (any_stale AllClusters p = true) as Ht
        by (apply any_stale_stale_clusters; congruence).
      congruence. }
    change (length AllClusters) with 2 in *. cbn [length map]. lia.
Qed.

(** X12. Once the download loop has started a goroutine the upload loop
    has work: on the records as the download stage leaves them it makes
    at least one call per download started and at most one per cluster
    of the fixed list for each, and it makes none exactly when no
    download was started. *)
Theorem download_implies_upload (w : World) (basedir : string) (ps : list Package) :
  let started := loop_tasks (download_body w basedir) 0 ps in
  let plan := upload_plan 0 (loop_records (download_body w basedir) 0 ps) in
  length started <= length plan
  /\ length plan <= length AllClusters * length started
  /\ (started = [] <-> plan = []).
Proof.
  cbv zeta. destruct (download_then_upload_count w basedir ps 0) as [Hlo Hhi].
  split; [exact Hlo |]. split; [exact Hhi |].
  split; intros H; rewrite H in *; simpl in *.
  - destruct (upload_plan 0 _); [reflexivity | simpl in Hhi; lia].
  - destruct (loop_tasks _ 0 ps); [reflexivity | simpl in Hlo; lia].
Qed.

(** ** The pool at the end of a run *)



(** ** Uploads and the downloads before them *)

Lemma all_delivered (body : nat -> Package -> option (task * task_end))
    (ps : list Package) :
  forall i0,
    length (loop_tasks body i0 ps) <= length (loop_sends body i0 ps) ->
    forall j p t e, ps !! j = Some p -> body (i0 + j) p = Some (t, e) ->
                    sends e = [record_after e].
Proof.
  induction ps as [| p0 rest IH]; intros i0 Hlen j p t e Hj Hb;
    [destruct j; discriminate |].
  cbn [loop_tasks loop_sends] in Hlen.
  pose proof (loop_sends_length_le body rest (S i0)) as Hle.
  destruct j as [| j].
  - simpl in Hj. inversion Hj; subst p0. rewrite Nat.add_0_r in Hb.
    rewrite Hb in Hlen. rewrite length_app in Hlen.
    destruct e; cbn [sends length] in *; [reflexivity | lia | lia].
  - simpl in Hj. apply (IH (S i0)) with (j := j) (p := p) (t := t); auto.
    + destruct (body i0 p0) as [[t0 e0] |]; [| exact Hlen].
      rewrite length_app in Hlen. cbn [length] in Hlen.
      assert (length (sends e0) <= 1) by (destruct e0; simpl; lia). lia.
    + now replace (S i0 + j) with (i0 + S j) by lia.
Qed.

Lemma loops_start_no_upload (w : World) (basedir : string) (ps : list Package)
    (i0 i : nat) (cluster : string) :
  ~ In (TUpload i cluster) (loop_tasks (validate_body w) i0 ps)
  /\ ~ In (TUpload i cluster) (loop_tasks (assess_body w) i0 ps)
  /\ ~ In (TUpload i cluster) (loop_tasks (download_body w basedir) i0 ps).
Proof.
  repeat split; intros Hin; apply loop_tasks_elem in Hin as (j & p & e & _ & Hb).
  - unfold validate_body in Hb. discriminate.
  - unfold assess_body in Hb. destruct (Valid p); discriminate.
  - unfold download_body in Hb. destruct (any_stale AllClusters p); discriminate.
Qed.

(** X13. In a run on fewer than [2^62] manifests an upload goroutine is
    only ever started for a record whose download goroutine was started
    and has delivered: the fetch of its artifact succeeded, its [File]
    is the path the download wrote, and the cluster is one of the fixed
    list with its need-update flag set.  No upload is attempted with a
    file that was not downloaded in this run. *)
Theorem uploads_follow_delivered_downloads (w : World) (pr : Process)
    (project rootPath : string) :
  (2 * Z.of_nat (length (glob pr (path_Join w rootPath (project +:+ ".json"))))
   <= int_max)%Z ->
  forall i cluster,
    In (TUpload i cluster) (spawned (fst (main w pr project rootPath))) ->
    In (TDownload i) (spawned (fst (main w pr project rootPath)))
    /\ exists p,
         pkgs (fst (main w pr project rootPath)) !! i = Some p
         /\ In cluster AllClusters
         /\ map_get (NeedUpdate p) cluster = true
         /\ fetch w (Artifact p) = Some true
         /\ File p = path_Join w (path_Join w (path_Join w (pwd pr) "downloads_tmp")
                                            (Project p))
                               (Str.Base (Artifact p)).
Proof.
  intros Hfew i cluster.
  remember (glob pr (path_Join w rootPath (project +:+ ".json"))) as matched eqn:Hm.
  symmetry in Hm.
  set (basedir := path_Join w (pwd pr) "downloads_tmp").
  destruct (decide (matched = [])) as [Hnil | Hne].
  { rewrite (main_no_manifest w pr project rootPath matched Hm Hfew Hnil).
    simpl. tauto. }
  rewrite (main_unfold w pr project rootPath matched Hm Hfew Hne). fold basedir.
  pose proof (loops_start_no_upload w basedir (decoded w matched) 0 i cluster)
    as (Hv & _ & _).
  pose proof (loops_start_no_upload w basedir (validated w matched) 0 i cluster)
    as (_ & Ha & _).
  pose proof (loops_start_no_upload w basedir (assessed w matched) 0 i cluster)
    as (_ & _ & Hd).
  assert (forall t2 t3,
            t2 = loop_tasks (assess_body w) 0 (validated w matched) ->
            t3 = loop_tasks (download_body w basedir) 0 (assessed w matched) ->
            ~ In (TUpload i cluster)
                ((loop_tasks (validate_body w) 0 (decoded w matched) ++ t2) ++ t3))
    as Hearly.
  { intros t2 t3 -> -> Hin.
    apply in_app_or in Hin as [Hin | Hin]; [| tauto].
    apply in_app_or in Hin as [Hin | Hin]; tauto. }
  destruct (loop_tasks (assess_body w) 0 (validated w matched)) as [| a2 r2] eqn:Ht2.
  { cbn [fst spawned]. intros Hin. exfalso.
    apply in_app_or in Hin as [Hin | []]. tauto. }
  destruct (loop_tasks (download_body w basedir) 0 (assessed w matched))
    as [| a3 r3] eqn:Ht3.
  { cbn [fst spawned]. intros Hin. exfalso. exact (Hearly _ _ eq_refl eq_refl Hin). }
  destruct (Nat.ltb_spec (length (loop_sends (download_body w basedir) 0
                                    (assessed w matched)))
                         (length (a3 :: r3))) as [Hshort | Hfull].
  { cbn [fst spawned]. intros Hin. exfalso. exact (Hearly _ _ eq_refl eq_refl Hin). }
  cbv zeta.
  match goal with |- context [upload_stage w (upload_sched pr) ?s] => set (s3 := s) end.
  assert (Z.of_nat (length (upload_plan 0 (pkgs s3))) <= int_max)%Z as Hplan.
  { pose proof (upload_plan_length (pkgs s3) 0) as Hle.
    change (length (pkgs s3)) with (length (downloaded w basedir matched)) in Hle.
    rewrite downloaded_length in Hle. change (length AllClusters) with 2 in Hle. lia. }
  destruct (upload_stage_inv w s3 eq_refl Hplan (upload_sched pr))
    as (a & _ & _ & Hsp & _ & Her & _).
  set (u := upload_stage w (upload_sched pr) s3) in *.
  assert (spawned (fst (if u_panicked u
                        then (u_main u, Panicked)
                        else (mkState (pkgs (u_main u)) (mkFutures [] 0)
                                      (spawned (u_main u))
                                      ["Checking validity of packages";
                                       "Checking which packer clusters need to be updated";
                                       "Downloading packages"; "Updating packages"],
                              Finished)))
          = spawned (u_main u)) as -> by (destruct (u_panicked u); reflexivity).
  assert (pkgs (fst (if u_panicked u
                     then (u_main u, Panicked)
                     else (mkState (pkgs (u_main u)) (mkFutures [] 0)
                                   (spawned (u_main u))
                                   ["Checking validity of packages";
                                    "Checking which packer clusters need to be updated";
                                    "Downloading packages"; "Updating packages"],
                           Finished)))
          = pkgs (u_main u)) as -> by (destruct (u_panicked u); reflexivity).
  rewrite Hsp. cbn [spawned s3 pkgs] in *.
  intros Hin. apply in_app_or in Hin as [Hin | Hin];
    [exfalso; exact (Hearly _ _ eq_refl eq_refl Hin) |].
  apply in_map_iff in Hin as ([i' c'] & Heq & Hin).
  unfold upload_task in Heq. cbn [fst snd] in Heq. inversion Heq; subst i' c'.
  assert (In (i, cluster) (upload_plan 0 (downloaded w basedir matched))) as Hplanin.
  { apply list_elem_of_In. apply list_elem_of_In in Hin.
    apply elem_of_take in Hin as (k & Hk & _).
    eapply list_elem_of_lookup_2, Hk. }
  apply upload_plan_elem in Hplanin as (j & p3 & Hj & Hp3 & Hc).
  cbn [fst snd] in Hj, Hc. simpl in Hj. subst j.
  apply stale_clusters_spec in Hc as [Hc Hflag].
  assert (i < length (assessed w matched)) as Hi.
  { apply lookup_lt_Some in Hp3. rewrite downloaded_length in Hp3.
    now rewrite assessed_length. }
  destruct (lookup_lt_is_Some_2 _ _ Hi) as [p2 Hp2].
  unfold downloaded in Hp3.
  rewrite (loop_records_lookup _ _ 0 i p2 Hp2) in Hp3. cbn [Nat.add] in Hp3.
  destruct (download_body w basedir i p2) as [[t e] |] eqn:Hb.
  2:{ exfalso. inversion Hp3; subst p3. unfold download_body in Hb.
      destruct (any_stale AllClusters p2) eqn:Hs; [discriminate |].
      assert (any_stale AllClusters p2 = true) as Ht
        by (apply any_stale_spec; eauto).
      congruence. }
  inversion Hp3; subst p3. clear Hp3.
  assert (sends e = [record_after e]) as Hsent.
  { eapply (all_delivered (download_body w basedir) (assessed w matched) 0);
      [| exact Hp2 | exact Hb].
    rewrite Ht3. exact Hfull. }
  unfold download_body in Hb.
  destruct (any_stale AllClusters p2); [| discriminate].
  inversion Hb; subst t e. clear Hb.
  split.
  - apply in_or_app. left. apply in_or_app. right.
    rewrite <- Ht3. apply loop_tasks_elem. exists i, p2, (DownloadArtifact w basedir p2).
    split; [exact Hp2 |]. unfold download_body. cbn [Nat.add].
    destruct (any_stale AllClusters p2) eqn:Hs; [reflexivity |].
    exfalso.
    assert (any_stale AllClusters p2 = true) as Ht.
    { apply any_stale_spec. exists cluster. split; [exact Hc |].
      now rewrite <- (DownloadArtifact_NeedUpdate w basedir p2). }
    congruence.
  - assert (i < length (pkgs (u_main u))) as Hi'.
    { rewrite <- (length_map erase_Updated), Her, length_map, downloaded_length.
      now rewrite assessed_length in Hi. }
    destruct (lookup_lt_is_Some_2 _ _ Hi') as [p Hp].
    assert (erase_Updated p
            = erase_Updated (record_after (DownloadArtifact w basedir p2))) as He.
    { apply (f_equal (fun l => l !! i)) in Her.
      rewrite !lookup_map, Hp in Her. unfold downloaded in Her.
      rewrite (loop_records_lookup _ _ 0 i p2 Hp2) in Her. cbn [Nat.add] in Her.
      unfold download_body in Her.
      destruct (any_stale AllClusters p2) eqn:Hs.
      - simpl in Her. congruence.
      - exfalso.
        assert (any_stale AllClusters p2 = true) as Ht.
        { apply any_stale_spec. exists cluster. split; [exact Hc |].
          now rewrite <- (DownloadArtifact_NeedUpdate w basedir p2). }
        congruence. }
    exists p. split; [exact Hp |]. split; [exact Hc |].
    pose proof (DownloadArtifact_sends w basedir p2) as Hds. cbv zeta in Hds.
    rewrite Hsent in Hds.
    unfold DownloadArtifact in He, Hflag, Hds |- *.
    destruct (mkdir_fails w _); [discriminate |].
    destruct (create_fails w _); [discriminate |].
    destruct (fetch w (Artifact p2)) as [[|] |] eqn:Hf; try discriminate.
    cbn [record_after] in He, Hflag.
    unfold erase_Updated, set_Updated, set_File in He. cbn in He.
    inversion He as [[HA HF HP HR HN HV]].
    cbn [NeedUpdate set_File] in Hflag.
    rewrite HF, HP, HN, HA. repeat split; assumption || reflexivity.
Qed.

Lemma uploads_follow_delivered_downloads_witness :
  In (TDownload 0) (spawned (fst (main Sample.world (Sample.process []) "*" "/cfg"))).
Proof.
  assert (2 * Z.of_nat (length (glob (Sample.process [])
                                  (path_Join Sample.world "/cfg" ("*" +:+ ".json"))))
          <= int_max)%Z as Hfew by (vm_compute; discriminate).
  assert (In (TUpload 0 "smf1")
             (spawned (fst (main Sample.world (Sample.process []) "*" "/cfg")))) as Hin
    by (vm_compute; auto 10).
  exact (proj1 (uploads_follow_delivered_downloads Sample.world (Sample.process [])
                  "*" "/cfg" Hfew 0 "smf1" Hin)).
Defined.

(** ** The upload stage when all calls come first *)

Lemma in_delete_ne {A} (l : list A) :
  forall k x y, l !! k = Some y -> x <> y -> In x l -> In x (delete k l).
Proof.
  induction l as [| a l IH]; intros k x y Hk Hne Hin; [destruct Hin |].
  destruct k as [| k]; simpl in *.
  - inversion Hk; subst. destruct Hin as [Heq | Hin]; [congruence | exact Hin].
  - destruct Hin as [Heq | Hin]; [now left | right; eapply IH; eauto].
Qed.

Lemma upload_steps_repeat (w : World) (c : choice) (n : nat) :
  forall u, upload_steps w (repeat c n) u = Nat.iter n (upload_step w c) u.
Proof.
  unfold upload_steps. induction n as [| n IH]; intros u; [reflexivity |].
  cbn [repeat fold_left]. rewrite IH, Nat.iter_succ_r. reflexivity.
Qed.

Lemma upload_steps_app (w : World) (cs1 cs2 : list choice) (u : upload_state) :
  upload_steps w (cs1 ++ cs2) u = upload_steps w cs2 (upload_steps w cs1 u).
Proof. unfold upload_steps. apply fold_left_app. Qed.

Lemma upload_result_erase (w : World) (username : string) (p q : Package) (c : string) :
  erase_Updated p = erase_Updated q ->
  upload_result w username p c = upload_result w username q c.
Proof.
  intros He. unfold erase_Updated, set_Updated in He.
  inversion He as [[HA HF HP HR HN HV]].
  unfold upload_result. now rewrite HR, HP, HF.
Qed.

Section CallsFirst.

Variable w : World.
Variable username : string.
Variable s0 : state.
Hypothesis user_known : current_user w = Some username.

Lemma UpdatePackage_run_known (cluster : string) (p : Package) :
  UpdatePackage_run w cluster p
  = Sent (set_Updated (<[cluster := upload_result w username p cluster]> (Updated p)) p).
Proof.
  unfold UpdatePackage_run, upload_result. rewrite user_known.
  destruct (package_add_version _ _ _ _ _ _); reflexivity.
Qed.

Lemma calling_inv_start : calling_inv s0 (upload_start s0).
Proof.
  exists 0. cbn [upload_start u_todo u_running u_panicked u_main].
  rewrite drop_0, take_0. repeat split.
  intros i p0 Hi. exists p0. repeat split; [exact Hi |].
  intros (c & []).
Qed.

Lemma calling_inv_call (u : upload_state) :
  calling_inv s0 u -> calling_inv s0 (upload_step w Main u).
Proof.
  intros (a & Htodo & Hrun & Hp & Hrec). unfold upload_step. rewrite Hp.
  destruct (u_todo u) as [| [i' c'] rest] eqn:Ht.
  { exists a. rewrite Ht. auto. }
  assert (upload_plan 0 (pkgs s0) !! a = Some (i', c')) as Hat.
  { rewrite <- (Nat.add_0_r a), <- lookup_drop, <- Htodo. reflexivity. }
  exists (S a). cbn [u_todo u_running u_panicked u_main upload_spawn pkgs].
  split; [rewrite (drop_S _ _ _ Hat) in Htodo; now inversion Htodo |].
  split; [now rewrite (take_S_r _ _ _ Hat), Hrun |].
  split; [reflexivity |].
  intros i p0 Hi. destruct (Hrec i p0 Hi) as (p & Hpi & He & Hempty).
  destruct (decide (i' = i)) as [-> | Hne].
  - exists (set_Updated ∅ p). split.
    + rewrite list_lookup_alter, Hpi. destruct (decide (i = i)); [reflexivity | congruence].
    + split; [exact He | reflexivity].
  - exists p. split; [now rewrite list_lookup_alter_ne |].
    split; [exact He |].
    intros (c & Hin). apply Hempty. exists c.
    rewrite (take_S_r _ _ _ Hat) in Hin. apply in_app_or in Hin as [Hin | Hin];
      [exact Hin |].
    destruct Hin as [Heq | []]. congruence.
Qed.

Lemma calling_inv_calls (n : nat) :
  calling_inv s0 (Nat.iter n (upload_step w Main) (upload_start s0)).
Proof.
  induction n as [| n IH]; [apply calling_inv_start |].
  rewrite Nat.iter_succ. apply calling_inv_call, IH.
Qed.

(** When [main] has made all its calls every stale pair is running and
    the maps it made are empty. *)
Lemma ending_inv_after_calls :
  ending_inv w username s0
    (Nat.iter (length (upload_plan 0 (pkgs s0))) (upload_step w Main) (upload_start s0)).
Proof.
  set (plan := upload_plan 0 (pkgs s0)).
  set (u := Nat.iter (length plan) (upload_step w Main) (upload_start s0)).
  destruct (settle_calls w s0 (length plan) (upload_start s0) eq_refl eq_refl)
    as [Htodo Hp].
  fold u in Htodo, Hp.
  destruct (calling_inv_calls (length plan)) as (a & Htodo' & Hrun & _ & Hrec).
  fold plan u in Htodo', Hrun, Hrec.
  assert (take a plan = plan) as Htake.
  { rewrite Htodo in Htodo'. symmetry in Htodo'.
    apply (f_equal length) in Htodo'. rewrite length_drop in Htodo'. simpl in Htodo'.
    apply take_ge. lia. }
  rewrite Htake in Hrun, Hrec.
  split; [exact Htodo |]. split; [exact Hp |]. split.
  - rewrite Hrun. apply Forall_forall. intros x Hx. now apply list_elem_of_In.
  - intros i p0 Hi. destruct (Hrec i p0 Hi) as (p & Hpi & He & Hempty).
    exists p. split; [exact Hpi |]. split; [exact He |].
    intros Hstale c.
    assert (Updated p = ∅) as Hnone.
    { apply Hempty. destruct (stale_clusters AllClusters p0) as [| c0 cs] eqn:Hs;
        [congruence |].
      exists c0. apply upload_plan_elem. exists i, p0. cbn [fst snd].
      split; [reflexivity |]. split; [exact Hi |]. rewrite Hs. now left. }
    unfold entry_state. rewrite Hnone, lookup_empty, Hrun.
    destruct (decide (c ∈ stale_clusters AllClusters p0)) as [Hin | Hnin].
    + left. split; [| reflexivity]. apply upload_plan_elem. exists i, p0.
      cbn [fst snd]. split; [reflexivity |]. split; [exact Hi |].
      now apply list_elem_of_In.
    + right. right. split; [| reflexivity]. now rewrite <- list_elem_of_In.
Qed.

Lemma ending_inv_step (c : choice) (u : upload_state) :
  ending_inv w username s0 u -> ending_inv w username s0 (upload_step w c u).
Proof.
  intros (Htodo & Hp & Hrun & Hrec). unfold upload_step. rewrite Hp.
  destruct c as [| k].
  { rewrite Htodo. repeat split; auto. }
  destruct (u_running u !! k) as [[i' c'] |] eqn:Hk;
    [| repeat split; auto].
  assert (In (i', c') (upload_plan 0 (pkgs s0))) as Hplan.
  { rewrite Forall_forall in Hrun. apply Hrun. eapply list_elem_of_lookup_2, Hk. }
  apply upload_plan_elem in Hplan as (j & p0' & Hj & Hp0' & Hc').
  cbn [fst snd] in Hj, Hc'. simpl in Hj. subst j.
  destruct (Hrec i' p0' Hp0') as (p' & Hp' & He' & Hent').
  unfold upload_finish. rewrite Hp', UpdatePackage_run_known.
  cbn [u_todo u_running u_panicked u_main pkgs record_after].
  split; [exact Htodo |]. split; [reflexivity |].
  split; [apply Forall_delete; exact Hrun |].
  intros i p0 Hi. destruct (decide (i' = i)) as [-> | Hne].
  - assert (p0' = p0) as -> by congruence.
    eexists. split.
    + apply list_lookup_insert_eq. eapply lookup_lt_Some, Hp'.
    + split; [exact He' |].
      intros Hstale c. specialize (Hent' Hstale c). unfold entry_state in *.
      cbn [Updated set_Updated].
      destruct (decide (c' = c)) as [-> | Hcne].
      * right. left. split; [exact Hc' |].
        rewrite lookup_insert_eq. f_equal. now apply upload_result_erase.
      * rewrite lookup_insert_ne by exact Hcne.
        destruct Hent' as [[Hin Hnone] | Hrest]; [| now right].
        left. split; [| exact Hnone].
        apply (in_delete_ne _ k _ (i, c')); [exact Hk | congruence |].
        exact Hin.
  - destruct (Hrec i p0 Hi) as (p & Hpi & He & Hent).
    exists p. split; [cbn [u_main pkgs]; now rewrite list_lookup_insert_ne |].
    split; [exact He |].
    intros Hstale c. specialize (Hent Hstale c). unfold entry_state in *.
    cbn [u_running].
    destruct Hent as [[Hin Hnone] | Hrest]; [| now right].
    left. split; [| exact Hnone].
    apply (in_delete_ne _ k _ (i', c')); [exact Hk | congruence | exact Hin].
Qed.

Lemma ending_inv_steps (cs : list choice) :
  forall u, ending_inv w username s0 u -> ending_inv w username s0 (upload_steps w cs u).
Proof.
  unfold upload_steps. induction cs as [| c cs IH]; intros u Hu; [exact Hu |].
  cbn [fold_left]. apply IH, ending_inv_step, Hu.
Qed.

Lemma ending_inv_iter (c : choice) (n : nat) :
  forall u, ending_inv w username s0 u ->
            ending_inv w username s0 (Nat.iter n (upload_step w c) u).
Proof.
  induction n as [| n IH]; intros u Hu; [exact Hu |].
  rewrite Nat.iter_succ. apply ending_inv_step, IH, Hu.
Qed.

Lemma calls_first_ends (rest : list choice) :
  let u := upload_stage w (repeat Main (length (upload_plan 0 (pkgs s0))) ++ rest) s0 in
  ending_inv w username s0 u /\ u_running u = [].
Proof.
  cbv zeta. unfold upload_stage, upload_settle.
  rewrite upload_steps_app, upload_steps_repeat.
  set (u1 := upload_steps w rest _).
  assert (ending_inv w username s0 u1) as H1
    by apply ending_inv_steps, ending_inv_after_calls.
  set (u2 := Nat.iter (length (u_todo u1)) (upload_step w Main) u1).
  assert (ending_inv w username s0 u2) as H2 by apply ending_inv_iter, H1.
  split; [apply ending_inv_iter, H2 |].
  destruct (settle_ends w s0 (length (u_running u2)) u2 eq_refl) as [_ Hend].
  cbv zeta in Hend. destruct Hend as [Hpan | Hnil]; [| exact Hnil].
  pose proof (ending_inv_iter (Task 0) (length (u_running u2)) u2 H2) as (_ & Hp & _).
  congruence.
Qed.

End CallsFirst.

(** X5. When [main] has made all its calls of [UpdatePackage] before
    the first upload goroutine ends, and the user lookup works, the
    stage ends without panic and, for every record with a stale cluster,
    the [Updated] map holds exactly one entry per stale cluster of the
    fixed list, telling whether the tool succeeded for that cluster,
    whatever the order in which the goroutines end. *)
Theorem calls_first_keeps_every_entry (w : World) (username : string) (s0 : state)
    (rest : list choice) :
  current_user w = Some username ->
  let u := upload_stage w (repeat Main (length (upload_plan 0 (pkgs s0))) ++ rest) s0 in
  u_panicked u = false
  /\ forall i p0, pkgs s0 !! i = Some p0 ->
       stale_clusters AllClusters p0 <> [] ->
       exists p, pkgs (u_main u) !! i = Some p
                 /\ (forall c, In c AllClusters -> map_get (NeedUpdate p0) c = true ->
                       Updated p !! c = Some (upload_result w username p0 c))
                 /\ (forall c, ~ (In c AllClusters /\ map_get (NeedUpdate p0) c = true) ->
                       Updated p !! c = None).
Proof.
  intros Hu. cbv zeta.
  destruct (calls_first_ends w username s0 Hu rest) as [(_ & Hp & _ & Hrec) Hnil].
  cbv zeta in Hnil, Hp, Hrec.
  split; [exact Hp |].
  intros i p0 Hi Hstale. destruct (Hrec i p0 Hi) as (p & Hpi & _ & Hent).
  exists p. split; [exact Hpi |].
  specialize (Hent Hstale). rewrite Hnil in Hent. unfold entry_state in Hent.
  split.
  - intros c Hc Hflag. destruct (Hent c) as [[[] _] | [[_ Hsome] | [Hnin _]]];
      [exact Hsome |].
    exfalso. apply Hnin. apply stale_clusters_spec. auto.
  - intros c Hnot. destruct (Hent c) as [[[] _] | [[Hin _] | [_ Hnone]]];
      [| exact Hnone].
    exfalso. apply Hnot. now apply stale_clusters_spec.
Qed.

Lemma calls_first_keeps_every_entry_witness :
  u_panicked
    (upload_stage Sample.world
       (repeat Main (length (upload_plan 0 (pkgs Sample.at_upload))) ++ [Task 1; Task 0])
       Sample.at_upload)
  = false.
Proof.
  exact (proj1 (calls_first_keeps_every_entry Sample.world "deploy" Sample.at_upload
                  [Task 1; Task 0] eq_refl)).
Defined.

Example calls_first_entries :
  Sample.updated_entries
    (u_main (upload_stage Sample.world (repeat Main 2 ++ [Task 1; Task 0])
               Sample.at_upload))
  = [("app", true, Some true, Some true)].
Proof. vm_compute. reflexivity. Qed.

(** ** The project name *)

Lemma append_assoc (s t r : string) : (s +:+ t) +:+ r = s +:+ (t +:+ r).
Proof.
  induction s as [| a s IH]; [reflexivity |].
  rewrite !append_cons. now rewrite IH.
Qed.

Lemma append_nil_r (s : string) : s +:+ "" = s.
Proof.
  induction s as [| a s IH]; [reflexivity |]. rewrite append_cons. now rewrite IH.
Qed.

Lemma append_nonempty_r (s t : string) : t <> "" -> s +:+ t <> "".
Proof.
  intros Ht. destruct s as [| a s]; [exact Ht |]. rewrite append_cons. discriminate.
Qed.

Lemma list_ascii_of_append (s t : string) :
  list_ascii_of_string (s +:+ t) = list_ascii_of_string s ++ list_ascii_of_string t.
Proof.
  induction s as [| a s IH]; [reflexivity |].
  rewrite append_cons. cbn [list_ascii_of_string app]. now rewrite IH.
Qed.

Lemma strip_trailing_slashes_append (s t : string) :
  Str.strip_trailing_slashes t <> "" ->
  Str.strip_trailing_slashes (s +:+ t) = s +:+ Str.strip_trailing_slashes t.
Proof.
  intros Ht. induction s as [| a s IH]; [reflexivity |].
  rewrite !append_cons. cbn [Str.strip_trailing_slashes]. rewrite IH.
  destruct (s +:+ Str.strip_trailing_slashes t) eqn:Hs; [| reflexivity].
  exfalso. eapply append_nonempty_r; eauto.
Qed.

Lemma after_last_slash_reset (d f : string) :
  forall acc, Str.after_last_slash acc (d +:+ String "/" f) = Str.after_last_slash "" f.
Proof.
  induction d as [| a d IH]; intros acc.
  - rewrite append_nil_l. reflexivity.
  - rewrite append_cons. cbn [Str.after_last_slash].
    destruct (Ascii.eqb a "/"); apply IH.
Qed.

Lemma after_last_slash_plain (f : string) :
  ~ In "/"%char (list_ascii_of_string f) ->
  forall acc, Str.after_last_slash acc f = acc +:+ f.
Proof.
  induction f as [| a f IH]; intros Hno acc.
  - simpl. now rewrite append_nil_r.
  - cbn [Str.after_last_slash].
    destruct (Ascii.eqb_spec a "/") as [-> | Hne].
    + exfalso. apply Hno. now left.
    + rewrite IH by (intros Hin; apply Hno; now right).
      rewrite append_assoc, append_cons, append_nil_l. reflexivity.
Qed.

(** [path.Base] of a path whose last element [f] is not empty, has no
    slash and no trailing slash to strip. *)
Lemma Base_last_element (d f : string) :
  f <> "" -> ~ In "/"%char (list_ascii_of_string f) ->
  Str.strip_trailing_slashes f = f ->
  Str.Base (d +:+ String "/" f) = f /\ Str.Base f = f.
Proof.
  intros Hne Hno Hstrip.
  assert (forall s, s <> "" -> Str.eqb s "" = false) as Hnz.
  { intros s Hs. unfold Str.eqb. destruct (String.eqb_spec s ""); congruence. }
  assert (Str.strip_trailing_slashes (String "/" f) = String "/" f) as Hstrip'.
  { cbn [Str.strip_trailing_slashes]. rewrite Hstrip.
    destruct f; [congruence | reflexivity]. }
  split.
  - unfold Str.Base. rewrite Hnz by (apply append_nonempty_r; discriminate).
    rewrite strip_trailing_slashes_append by (rewrite Hstrip'; discriminate).
    rewrite Hstrip'. cbv zeta.
    rewrite after_last_slash_reset, after_last_slash_plain by exact Hno.
    rewrite append_nil_l, Hnz by exact Hne. reflexivity.
  - unfold Str.Base. rewrite Hnz by exact Hne. rewrite Hstrip. cbv zeta.
    rewrite after_last_slash_plain by exact Hno.
    rewrite append_nil_l, Hnz by exact Hne. reflexivity.
Qed.

Lemma has_prefix_json_overlap (t : string) :
  t <> "" -> (forall post, t <> ".json" +:+ post) ->
  Str.has_prefix ".json" (t +:+ ".json") = false.
Proof.
  intros Hne Hno.
  destruct t as [| a1 [| a2 [| a3 [| a4 [| a5 t5]]]]]; [congruence | | | | |];
    rewrite ?append_cons, ?append_nil_l; cbn [Str.has_prefix];
    try (cbn; rewrite ?andb_false_r; reflexivity).
  destruct (Ascii.eqb_spec "." a1) as [<- | _]; [| reflexivity].
  destruct (Ascii.eqb_spec "j" a2) as [<- | _]; [| reflexivity].
  destruct (Ascii.eqb_spec "s" a3) as [<- | _]; [| reflexivity].
  destruct (Ascii.eqb_spec "o" a4) as [<- | _]; [| reflexivity].
  destruct (Ascii.eqb_spec "n" a5) as [<- | _]; [| reflexivity].
  exfalso. apply (Hno t5). reflexivity.
Qed.

Lemma before_first_json (name : string) :
  ~ occurs ".json" name ->
  Str.before_first ".json" (name +:+ ".json") = name.
Proof.
  induction name as [| a name IH]; intros Hno; [reflexivity |].
  rewrite append_cons. cbn [Str.before_first].
  rewrite <- append_cons.
  rewrite has_prefix_json_overlap.
  - f_equal. apply IH.
    intros (pre & post & Heq). apply Hno. exists (String a pre), post.
    rewrite append_cons. now rewrite Heq.
  - discriminate.
  - intros post Heq. apply Hno. exists "", post. now rewrite append_nil_l.
Qed.

(** X4. The project name of a manifest is its file name without the
    extension: for a path [dir/name.json], or a bare [name.json], whose
    [name] has no slash and does not itself contain [.json], the record
    delivered by the decode goroutine has project [name], whatever the
    file holds and whether or not it could be read. *)
Theorem project_name_of_manifest_path (w : World) (dir name : string) :
  ~ In "/"%char (list_ascii_of_string name) ->
  ~ occurs ".json" name ->
  Project (record_after (decodeJsonFile w (dir +:+ "/" +:+ name +:+ ".json"))) = name
  /\ Project (record_after (decodeJsonFile w (name +:+ ".json"))) = name.
Proof.
  intros Hslash Hjson.
  assert (name +:+ ".json" <> "") as Hne by (apply append_nonempty_r; discriminate).
  assert (~ In "/"%char (list_ascii_of_string (name +:+ ".json"))) as Hno.
  { rewrite list_ascii_of_append. intros Hin. apply in_app_or in Hin as [Hin | Hin];
      [exact (Hslash Hin) |].
    simpl in Hin. intuition discriminate. }
  assert (Str.strip_trailing_slashes (name +:+ ".json") = name +:+ ".json") as Hstrip.
  { rewrite strip_trailing_slashes_append; [reflexivity | discriminate]. }
  destruct (Base_last_element dir (name +:+ ".json") Hne Hno Hstrip) as [Hb1 Hb2].
  unfold decodeJsonFile. cbn [record_after Project set_Project].
  change (dir +:+ "/" +:+ name +:+ ".json") with (dir +:+ String "/" (name +:+ ".json")).
  rewrite Hb1, Hb2, before_first_json by exact Hjson. auto.
Qed.

Lemma project_name_of_manifest_path_witness :
  Project (record_after (decodeJsonFile Sample.world_badrev "/cfg/deploy/app.json"))
  = "app".
Proof.
  assert (~ In "/"%char (list_ascii_of_string "app")) as Hs
    by (simpl; intuition discriminate).
  assert (~ occurs ".json" "app") as Hj.
  { intros (pre & post & Heq).
    apply (f_equal String.length) in Heq.
    rewrite !string_length_append in Heq. simpl in Heq. lia. }
  exact (proj1 (project_name_of_manifest_path Sample.world_badrev "/cfg/deploy"
                  "app" Hs Hj)).
Defined.

(** ** The assessment loop *)

Lemma assess_count (w : World) (ps : list Package) :
  forall i0 i,
    count_occ task_eq_dec (loop_tasks (assess_body w) i0 ps) (TAssess i)
    = if decide (i0 <= i)
      then match ps !! (i - i0) with
           | Some p => if Valid p then 1 else 0
           | None => 0
           end
      else 0.
Proof.
  induction ps as [| p rest IH]; intros i0 i.
  - simpl. destruct (decide (i0 <= i)); reflexivity.
  - cbn [loop_tasks]. unfold assess_body at 1.
    destruct (decide (i0 = i)) as [-> | Hne].
    + rewrite Nat.sub_diag. cbn [lookup list_lookup].
      destruct (decide (i <= i)) as [_ | Hbad]; [| lia].
      destruct (Valid p).
      * rewrite count_occ_cons_eq by reflexivity. rewrite IH.
        destruct (decide (S i <= i)); [lia | reflexivity].
      * rewrite IH. destruct (decide (S i <= i)); [lia | reflexivity].
    + destruct (Valid p) eqn:Hv;
        [rewrite count_occ_cons_neq by congruence |];
        (rewrite IH;
         destruct (decide (S i0 <= i)) as [Hle | Hgt];
         destruct (decide (i0 <= i)) as [Hle' | Hgt']; try lia; try reflexivity;
         replace (i - i0) with (S (i - S i0)) by lia; reflexivity).
Qed.

(** X14. The assessment loop started in any state of [main] starts only
    assessment goroutines, exactly one for each valid record and none
    for an invalid one; a valid record comes out as its goroutine leaves
    it, an invalid record comes out as it went in, need-update flags
    included. *)
Theorem one_assessment_per_valid_record (w : World) (s : state) :
  exists started,
    spawned (run_loop (assess_body w) s) = spawned s ++ started
    /\ (forall t, In t started -> exists i, t = TAssess i)
    /\ forall i p, pkgs s !! i = Some p ->
         count_occ task_eq_dec started (TAssess i) = (if Valid p then 1 else 0)
         /\ pkgs (run_loop (assess_body w) s) !! i
            = Some (if Valid p then record_after (IsUpdateNeeded w p) else p).
Proof.
  exists (loop_tasks (assess_body w) 0 (pkgs s)).
  rewrite run_loop_spec. cbn [spawned pkgs].
  split; [reflexivity |]. split.
  - intros t Hin. apply loop_tasks_elem in Hin as (j & p & e & _ & Hb).
    unfold assess_body in Hb. destruct (Valid p); [| discriminate].
    inversion Hb. eauto.
  - intros i p Hi. split.
    + rewrite assess_count, Nat.sub_0_r, Hi.
      destruct (decide (0 <= i)); [reflexivity | lia].
    + rewrite (loop_records_lookup _ _ 0 i p Hi). cbn [Nat.add].
      unfold assess_body. destruct (Valid p); reflexivity.
Qed.

(** ** The pool and the goroutines behind it *)

Lemma register_all_spec (es : list task_end) :
  forall f,
    register_all es f
    = mkFutures (Channels f ++ flat_map sends es)
                (Nat.iter (length es) int_incr (ItemsInChannels f)).
Proof.
  unfold register_all. induction es as [| e es IH]; intros [ch n].
  - simpl. now rewrite app_nil_r.
  - cbn [fold_left]. rewrite IH.
    cbn [relay AddFuture Channels ItemsInChannels flat_map length].
    rewrite <- app_assoc, Nat.iter_succ_r. reflexivity.
Qed.

Lemma sends_count (es : list task_end) :
  length (flat_map sends es) <= length es
  /\ (forallb delivers es = true -> length (flat_map sends es) = length es)
  /\ (forallb delivers es = false -> length (flat_map sends es) < length es).
Proof.
  induction es as [| e es (Hle & Hall & Hsome)]; [simpl; repeat split; (lia || discriminate) |].
  cbn [flat_map forallb length]. rewrite length_app.
  destruct e; cbn [sends delivers length andb]; repeat split; intros; try discriminate;
    try lia.
  - rewrite Hall by assumption. lia.
  - specialize (Hsome ltac:(assumption)). lia.
Qed.

(** X16. The contract between the pool and the goroutines behind it:
    when fewer than [2^63] futures are registered with an empty pool,
    the drain returns, with the pool empty again, exactly when every one
    of the goroutines sends on its future; if a single one returns or
    panics without sending, the drain never returns. *)
Theorem drain_returns_iff_all_deliver (es : list task_end) :
  (Z.of_nat (length es) <= int_max)%Z ->
  (forallb delivers es = true ->
     BlockUntilComplete (register_all es newFutures) = Some (mkFutures [] 0))
  /\ (forallb delivers es = false ->
        BlockUntilComplete (register_all es newFutures) = None).
Proof.
  intros Hn. rewrite register_all_spec.
  cbn [newFutures Channels ItemsInChannels app].
  rewrite iter_int_incr by (simpl; lia). rewrite Z.add_0_l.
  destruct (sends_count es) as (_ & Hall & Hsome). split; intros H.
  - apply BlockUntilComplete_exact. now apply Hall.
  - apply BlockUntilComplete_starved. now apply Hsome.
Qed.

Lemma drain_returns_iff_all_deliver_witness :
  BlockUntilComplete
    (register_all [Sent zeroPackage; Returned zeroPackage; Sent zeroPackage] newFutures)
  = None.
Proof.
  assert (Z.of_nat (length [Sent zeroPackage; Returned zeroPackage; Sent zeroPackage])
          <= int_max)%Z as Hn by (vm_compute; discriminate).
  exact (proj2 (drain_returns_iff_all_deliver _ Hn) eq_refl).
Defined.

(** ** How a run ends *)

Lemma all_send_length (body : nat -> Package -> option (task * task_end))
    (ps : list Package) :
  forall i0,
    (forall j p t e, ps !! j = Some p -> body (i0 + j) p = Some (t, e) ->
                     sends e <> []) ->
    length (loop_sends body i0 ps) = length (loop_tasks body i0 ps).
Proof.
  induction ps as [| p0 rest IH]; intros i0 Hall; [reflexivity |].
  cbn [loop_sends loop_tasks].
  assert (length (loop_sends body (S i0) rest) = length (loop_tasks body (S i0) rest))
    as Hrest.
  { apply IH. intros j p t e Hj Hb. apply (Hall (S j) p t e); [exact Hj |].
    now replace (i0 + S j) with (S i0 + j) by lia. }
  destruct (body i0 p0) as [[t0 e0] |] eqn:Hb; [| exact Hrest].
  rewrite length_app, Hrest.
  specialize (Hall 0 p0 t0 e0 eq_refl). rewrite Nat.add_0_r in Hall.
  specialize (Hall Hb). destruct e0; simpl in *; congruence.
Qed.

Lemma downloads_deliver_iff (w : World) (basedir : string) (ps : list Package) :
  downloads_deliver w basedir ps <->
  length (loop_tasks (download_body w basedir) 0 ps)
  <= length (loop_sends (download_body w basedir) 0 ps).
Proof.
  split.
  - intros Hall. rewrite all_send_length; [lia |].
    intros j p t e Hj Hb. cbn [Nat.add] in Hb. unfold download_body in Hb.
    destruct (any_stale AllClusters p) eqn:Hs; [| discriminate].
    inversion Hb; subst. exact (Hall j p Hj Hs).
  - intros Hlen i p Hi Hs.
    assert (download_body w basedir (0 + i) p
            = Some (TDownload i, DownloadArtifact w basedir p)) as Hb
      by (unfold download_body; now rewrite Hs).
    rewrite (all_delivered _ _ 0 Hlen i p _ _ Hi Hb). discriminate.
Qed.

Lemma described_gate_Proceed (w : World) (basedir : string) (matched : list string) :
  described_gate w matched = Proceed <->
  matched <> []
  /\ loop_tasks (assess_body w) 0 (validated w matched) <> []
  /\ loop_tasks (download_body w basedir) 0 (assessed w matched) <> [].
Proof.
  destruct (decide (matched = [])) as [-> | Hne].
  { simpl. split; [discriminate | intros [H _]; congruence]. }
  rewrite (described_gate_some w matched Hne).
  pose proof (assess_tasks_nil w (validated w matched) 0) as Ha.
  pose proof (download_tasks_nil w basedir (assessed w matched) 0) as Hd.
  destruct (forallb (fun p => negb (Valid p)) (validated w matched)).
  { split; [discriminate | intros (_ & H & _); tauto]. }
  destruct (forallb (fun p => negb (any_stale AllClusters p)) (assessed w matched)).
  { split; [discriminate | intros (_ & _ & H); tauto]. }
  split; [intros _ | reflexivity].
  split; [exact Hne |]. split; intros H.
  - apply Ha in H. discriminate.
  - apply Hd in H. discriminate.
Qed.



(** ** The gates of the driver, and the run past them *)

Lemma download_succeeds_sends (w : World) (basedir : string) (p : Package) :
  download_succeeds w basedir p <-> sends (DownloadArtifact w basedir p) <> [].
Proof.
  unfold download_succeeds, DownloadArtifact.
  destruct (mkdir_fails w _); [cbn [sends]; intuition congruence |].
  destruct (create_fails w _); [cbn [sends]; intuition congruence |].
  destruct (fetch w (Artifact p)) as [[|] |]; cbn [sends]; intuition congruence.
Qed.

Lemma downloads_succeed_iff (w : World) (basedir : string) (ps : list Package) :
  downloads_succeed w basedir ps <->
  length (loop_tasks (download_body w basedir) 0 ps)
  <= length (loop_sends (download_body w basedir) 0 ps).
Proof.
  rewrite <- downloads_deliver_iff. unfold downloads_succeed, downloads_deliver.
  split; intros H i p Hi Hs; apply download_succeeds_sends; exact (H i p Hi Hs).
Qed.

(** C7. The gates of the driver, for a run on fewer than [2^62]
    manifests: it aborts with "No packages found" when the pattern
    matched nothing, aborts with "Unable to process any projects!" when
    no record is valid after validation, exits with status 0 when no
    valid record has a stale cluster, and otherwise goes on into the
    download drain.  Past these gates there is no other test: when the
    download of every record with a stale cluster goes through, the
    upload loop makes every planned call, [main] drains the pool and
    returns after the report (or an upload goroutine panics, exactly
    when the user lookup fails); the run hangs in the download drain
    exactly when one of those downloads does not go through. *)
Theorem driver_gates (w : World) (pr : Process) (project rootPath : string) :
  (2 * Z.of_nat (length (glob pr (path_Join w rootPath (project +:+ ".json"))))
   <= int_max)%Z ->
  let matched := glob pr (path_Join w rootPath (project +:+ ".json")) in
  let basedir := path_Join w (pwd pr) "downloads_tmp" in
  gate_of (snd (main w pr project rootPath)) = described_gate w matched
  /\ (described_gate w matched = Proceed ->
        In "Downloading packages" (drains (fst (main w pr project rootPath))))
  /\ (snd (main w pr project rootPath) = Finished <->
        described_gate w matched = Proceed
        /\ downloads_succeed w basedir (assessed w matched)
        /\ current_user w <> None)
  /\ (snd (main w pr project rootPath) = Panicked <->
        described_gate w matched = Proceed
        /\ downloads_succeed w basedir (assessed w matched)
        /\ current_user w = None)
  /\ (snd (main w pr project rootPath) = Hung <->
        described_gate w matched = Proceed
        /\ ~ downloads_succeed w basedir (assessed w matched))
  /\ (snd (main w pr project rootPath) = Finished ->
        drains (fst (main w pr project rootPath))
        = [ "Checking validity of packages";
            "Checking which packer clusters need to be updated";
            "Downloading packages"; "Updating packages" ]
        /\ forall x,
             In x (upload_plan 0 (downloaded w basedir matched)) ->
             In (upload_task x) (spawned (fst (main w pr project rootPath)))).
Proof.
  intros Hfew.
  remember (glob pr (path_Join w rootPath (project +:+ ".json"))) as matched eqn:Hm.
  symmetry in Hm. cbv zeta.
  set (basedir := path_Join w (pwd pr) "downloads_tmp").
  pose proof (described_gate_Proceed w basedir matched) as Hgate.
  rewrite (downloads_succeed_iff w basedir (assessed w matched)).
  destruct (decide (matched = [])) as [Hnil | Hne].
  { rewrite (main_no_manifest w pr project rootPath matched Hm Hfew Hnil).
    assert (described_gate w matched = AbortNoPackages) as Hd by now rewrite Hnil.
    rewrite Hd. cbn [fst snd gate_of].
    intuition (discriminate || congruence). }
  rewrite (main_unfold w pr project rootPath matched Hm Hfew Hne). fold basedir.
  rewrite (described_gate_some w matched Hne) in *.
  pose proof (assess_tasks_nil w (validated w matched) 0) as Ha.
  pose proof (download_tasks_nil w basedir (assessed w matched) 0) as Hd.
  destruct (loop_tasks (assess_body w) 0 (validated w matched)) as [| a2 r2] eqn:Ht2.
  { rewrite (proj1 Ha eq_refl). cbn [fst snd gate_of].
    intuition (discriminate || congruence). }
  assert (forallb (fun p => negb (Valid p)) (validated w matched) = false) as Hv.
  { destruct (forallb _ (validated w matched)); [| reflexivity].
    specialize (proj2 Ha eq_refl). discriminate. }
  rewrite Hv in *. clear Ha.
  pose proof (download_then_upload_count w basedir (assessed w matched) 0) as [Hlo _].
  fold (downloaded w basedir matched) in Hlo.
  destruct (loop_tasks (download_body w basedir) 0 (assessed w matched))
    as [| a3 r3] eqn:Ht3.
  { rewrite (proj1 Hd eq_refl). cbn [fst snd gate_of].
    intuition (discriminate || congruence). }
  assert (forallb (fun p => negb (any_stale AllClusters p)) (assessed w matched) = false)
    as Hst.
  { destruct (forallb _ (assessed w matched)); [| reflexivity].
    specialize (proj2 Hd eq_refl). discriminate. }
  rewrite Hst in *. clear Hd Hgate.
  destruct (Nat.ltb_spec (length (loop_sends (download_body w basedir) 0
                                    (assessed w matched)))
                         (length (a3 :: r3))) as [Hshort | Hfull].
  { cbn [fst snd gate_of drains].
    split; [reflexivity |]. split; [intros _; simpl; auto |].
    intuition (discriminate || lia). }
  cbv zeta.
  match goal with |- context [upload_stage w (upload_sched pr) ?s] => set (s3 := s) end.
  assert (Z.of_nat (length (upload_plan 0 (pkgs s3))) <= int_max)%Z as Hplan.
  { pose proof (upload_plan_length (pkgs s3) 0) as Hle.
    change (length (pkgs s3)) with (length (downloaded w basedir matched)) in Hle.
    rewrite downloaded_length in Hle. change (length AllClusters) with 2 in Hle. lia. }
  assert (upload_plan 0 (pkgs s3) <> []) as Hwork.
  { change (pkgs s3) with (downloaded w basedir matched).
    destruct (upload_plan 0 (downloaded w basedir matched)); [simpl in Hlo; lia |].
    discriminate. }
  destruct (u_panicked (upload_stage w (upload_sched pr) s3)) eqn:Hp.
  - destruct (upload_stage_panicked w s3 eq_refl Hplan _ Hp) as [Hu _].
    destruct (upload_stage_inv w s3 eq_refl Hplan (upload_sched pr))
      as (a & _ & _ & _ & Hdr & _).
    cbn [fst snd gate_of].
    split; [reflexivity |]. split; [intros _; rewrite Hdr; simpl; auto |].
    intuition (discriminate || congruence || lia).
  - destruct (upload_stage_done w s3 eq_refl Hplan (upload_sched pr) Hp)
      as (Hsp & _ & _ & _ & _ & Huser).
    specialize (Huser Hwork).
    cbn [fst snd gate_of drains spawned].
    split; [reflexivity |]. split; [intros _; simpl; auto |].
    split; [intuition (discriminate || congruence || lia) |].
    split; [intuition (discriminate || congruence || lia) |].
    split; [intuition (discriminate || congruence || lia) |].
    intros _. split; [reflexivity |].
    intros x Hx. rewrite Hsp. apply in_or_app. right. apply in_map. exact Hx.
Qed.

(** One valid manifest with both clusters stale, every download step
    and the user lookup working: the run goes through the upload stage
    and [main] returns. *)
Lemma driver_gates_witness :
  snd (main Sample.world (Sample.process []) "*" "/cfg") = Finished
  /\ In (TUpload 0 "smf1")
        (spawned (fst (main Sample.world (Sample.process []) "*" "/cfg"))).
Proof.
  assert (2 * Z.of_nat (length (glob (Sample.process [])
                                  (path_Join Sample.world "/cfg" ("*" +:+ ".json"))))
          <= int_max)%Z as Hfew by (vm_compute; discriminate).
  destruct (driver_gates Sample.world (Sample.process []) "*" "/cfg" Hfew)
    as (_ & _ & Hfin & _ & _ & Hup).
  assert (snd (main Sample.world (Sample.process []) "*" "/cfg") = Finished) as Hdone.
  { apply Hfin. split; [vm_compute; reflexivity |]. split.
    - intros i p _ _. unfold download_succeeds. repeat split.
    - discriminate. }
  split; [exact Hdone |].
  apply (proj2 (Hup Hdone) (0, "smf1")). vm_compute. auto.
Defined.
